(** * Configuration rendering engine of containerlab (package [config])

    A shallow embedding of the template store, the template function
    library, the template renderer and the node and link renderers, and the
    properties of them that the specification states. *)

From Stdlib Require Import ZArith Ascii String Lia.
From stdpp Require Import base option list gmap strings pretty fin_maps.

Open Scope string_scope.
Open Scope list_scope.
Set Warnings "-register-all,-clear-no-such-hyp".

(** ** The Go runtime, as far as the package relies on it *)

Module Go.

(** Run-time panics of the operations the package performs unguarded. *)
Inductive RuntimeError :=
| IndexOutOfRange (i : Z) (len : nat)
| SliceBoundsOutOfRange (lo hi : Z) (cap : nat)
| NilPointerDereference.

(** A Go call either returns or panics; nothing here recovers a panic. *)
Inductive Outcome (A : Type) :=
| Done (a : A)
| Panics (e : RuntimeError).
Arguments Done {A} a.
Arguments Panics {A} e.

#[global] Instance Outcome_ret : MRet Outcome := fun A a => Done a.
#[global] Instance Outcome_bind : MBind Outcome := fun A B f m =>
  match m with
  | Done a => f a
  | Panics e => Panics e
  end.

(** [error] values are kept as their message. *)
Definition error := string.

(** The machine [int] is 64 bits wide, two's complement. *)
Definition int_min : Z := - 2 ^ 63.
Definition int_max : Z := 2 ^ 63 - 1.
Definition wrap_int (z : Z) : Z := (z + 2 ^ 63) mod 2 ^ 64 - 2 ^ 63.
Definition in_int (z : Z) : Prop := (int_min <= z <= int_max)%Z.

(** [len] of a string counts bytes; a Rocq string is a byte sequence. *)
Definition len_string (s : string) : Z := Z.of_nat (String.length s).

(** [a[i]] on a slice. *)
Definition index {A} (a : list A) (i : nat) : Outcome A :=
  match a !! i with
  | Some x => Done x
  | None => Panics (IndexOutOfRange (Z.of_nat i) (length a))
  end.

(** [v[lo:hi]] on a string: the bounds must satisfy
    [0 <= lo <= hi <= len(v)]. *)
Definition slice_string (v : string) (lo hi : Z) : Outcome string :=
  if ((0 <=? lo) && (lo <=? hi) && (hi <=? len_string v))%Z
  then Done (String.substring (Z.to_nat lo) (Z.to_nat (hi - lo)) v)
  else Panics (SliceBoundsOutOfRange lo hi (String.length v)).

(** [v[lo:hi]] on a slice whose visible elements are [elems] and whose
    backing array goes on with [spare] up to the capacity: the bounds must
    satisfy [0 <= lo <= hi <= cap(v)].  The result sees the elements from
    [lo] to [hi] and keeps the rest of the array as its spare capacity. *)
Definition slice_slice {A} (elems spare : list A) (lo hi : Z)
  : Outcome (list A * list A) :=
  let arr := elems ++ spare in
  if ((0 <=? lo) && (lo <=? hi) && (hi <=? Z.of_nat (length arr)))%Z
  then Done (take (Z.to_nat (hi - lo)) (drop (Z.to_nat lo) arr),
             drop (Z.to_nat hi) arr)
  else Panics (SliceBoundsOutOfRange lo hi (length arr)).

(** [strings.Split(s, sep)] for a separator of one byte, which is what
    both call sites pass: the pieces between the occurrences of [sep], at
    least one piece. *)
Fixpoint strings_Split (s : string) (sep : ascii) : list string :=
  match s with
  | EmptyString => [EmptyString]
  | String c s' =>
      if Ascii.eqb c sep then EmptyString :: strings_Split s' sep
      else match strings_Split s' sep with
           | t :: ts => String c t :: ts
           | [] => [String c EmptyString]
           end
  end.

(** [strings.Contains(s, sub)] for a one-byte [sub]. *)
Fixpoint contains_byte (s : string) (c : ascii) : bool :=
  match s with
  | EmptyString => false
  | String d s' => Ascii.eqb d c || contains_byte s' c
  end.

(** *** [bufio.Scanner] with the default split function [ScanLines] *)

Definition MaxScanTokenSize : nat := 64 * 1024.

Definition newline : ascii := "010"%char.
Definition carriage_return : ascii := "013"%char.

(** The runs of bytes that end at a newline or at the end of the data; a
    final newline does not start a further, empty run. *)
Fixpoint raw_lines (data : string) : list string :=
  match data with
  | EmptyString => []
  | String c rest =>
      if Ascii.eqb c newline then EmptyString :: raw_lines rest
      else match raw_lines rest with
           | t :: ts => String c t :: ts
           | [] => [String c EmptyString]
           end
  end.

(** [dropCR]: one trailing carriage return is not part of the token. *)
Fixpoint dropCR (data : string) : string :=
  match data with
  | EmptyString => EmptyString
  | String c EmptyString =>
      if Ascii.eqb c carriage_return then EmptyString else data
  | String c rest => String c (dropCR rest)
  end.

(** A run is delivered when the scanner's buffer, which grows to
    [MaxScanTokenSize] bytes and no further, can hold it together with the
    byte that ends it.  At the first run that does not fit [Scan] gives up
    with [ErrTooLong] and returns false from then on. *)
Definition fits (run : string) : bool :=
  Nat.ltb (String.length run) MaxScanTokenSize.

Fixpoint scan_while_fits (runs : list string) : list string :=
  match runs with
  | [] => []
  | r :: rs => if fits r then dropCR r :: scan_while_fits rs else []
  end.

(** The tokens that a loop [for s.Scan() { ... s.Text() ... }] sees. *)
Definition Scanner_tokens (data : string) : list string :=
  scan_while_fits (raw_lines data).

End Go.

Export Go.


(** ** The function library injected into every template *)

Module Funcs.

(** The values a template can hand to a function ([interface{}]).  A
    [[]interface{}] is a slice: its visible elements, and the elements of
    its backing array between its length and its capacity. *)
Inductive Value :=
| VNil
| VString (s : string)
| VInt (n : Z)
| VBool (b : bool)
| VSlice (elems spare : list Value)
| VStrings (l : list string)
| VInts (l : list Z).

(** [fmt.Sprintf("%v", val)]. *)
Fixpoint Sprintf_v (val : Value) : string :=
  match val with
  | VNil => "<nil>"
  | VString s => s
  | VInt n => pretty n
  | VBool b => if b then "true" else "false"
  | VSlice elems _ =>
      "[" +:+ String.concat " " (List.map Sprintf_v elems) +:+ "]"
  | VStrings l => "[" +:+ String.concat " " l +:+ "]"
  | VInts l => "[" +:+ String.concat " " (List.map pretty l) +:+ "]"
  end.

Definition slash : ascii := "/"%char.

(** A template function returns [(interface{}, error)]. *)
Definition FuncResult : Type := Outcome (Value * option error).

Definition ip (val : Value) : FuncResult :=
  let s := Sprintf_v val in
  let a := strings_Split s slash in
  a0 ← index a 0;
  mret (VString a0, None).

Definition ipmask (val : Value) : FuncResult :=
  let s := Sprintf_v val in
  let a := strings_Split s slash in
  a1 ← index a 1;
  mret (VString a1, None).

(** [if s < 0 { s += len(v) }] on the machine [int]. *)
Definition from_end (i n : Z) : Z :=
  if (i <? 0)%Z then wrap_int (i + n) else i.

Definition slice (val start end_ : Value) : FuncResult :=
  match start with
  | VInt s =>
      match end_ with
      | VInt e =>
          match val with
          | VString v =>
              let s := from_end s (len_string v) in
              let e := from_end e (len_string v) in
              r ← slice_string v s e;
              mret (VString r, None)
          | VSlice v spare =>
              let s := from_end s (Z.of_nat (length v)) in
              let e := from_end e (Z.of_nat (length v)) in
              r ← slice_slice v spare s e;
              mret (VSlice r.1 r.2, None)
          | _ => mret (VNil, Some "not an array")
          end
      | tmp =>
          mret (VNil, Some ("int expeted for 3rd parameter " +:+ Sprintf_v tmp))
      end
  | tmp =>
      mret (VNil, Some ("int expeted for 2nd parameter " +:+ Sprintf_v tmp))
  end.

End Funcs.

Export Funcs.

(** ** The topology objects the engine reads (package [clab]) *)

Module clab.

(** Modelled from the spec: [clab.Node], declared in package [clab] and
    not in this package; these are the fields the engine reads.  The
    engine receives nodes and links by pointers, which are taken to be
    non-nil. *)
Record Node := {
  ShortName : string;
  LongName : string;
  Labels : gmap string string
}.

(** Modelled from the spec: [clab.Endpoint], of which the engine reads the
    node it binds to (the field [Node]). *)
Record Endpoint := { EndpointNode : Node }.

(** Modelled from the spec: [clab.Link], with its two endpoints and the
    label map that the two sides share (the field [Labels]). *)
Record Link := {
  A : Endpoint;
  B : Endpoint;
  LinkLabels : gmap string string
}.

End clab.

(** ** What the engine takes from its environment *)

(** The order in which a [for k, v := range m] loop visits a map is not
    fixed by the language: every loop site may see any order of the
    entries. *)
Class MapOrder := {
  range_order : forall V : Type, nat -> gmap string V -> list (string * V);
  range_order_perm : forall V site (m : gmap string V),
    range_order V site m ≡ₚ map_to_list m
}.
Arguments range_order {_ V} site m.

(** The collaborators: [text/template], [path/filepath], the address
    assignment [linkIPfromSystemIP] of this package, the label key
    [systemIP] and the display string of a link. *)
Class Externals := {
  Template : Type;
  FileSystem : Type;
  IPNet : Type;
  filepath_Join : list string -> string;
  (** [template.New(kind).Funcs(funcMap).ParseGlob(tp)]: the pair that the
      call returns, a nil set being [None]. *)
  ParseGlob : FileSystem -> string -> string -> option Template * option error;
  (** [ExecuteTemplate] on a compiled set: the bytes written and the error. *)
  Execute : Template -> string -> gmap string string ->
            Outcome (string * option error);
  linkIPfromSystemIP : clab.Link -> (IPNet * IPNet) + error;
  IPNet_String : IPNet -> string;
  systemIP : string;
  Link_String : clab.Link -> string
}.

(** ** The engine *)

Abbreviation labelMap := (gmap string string).
Abbreviation pairMap := (gmap string (list string)).

(** [for ... range] over the entries in the order they are visited, with a
    body that can log or panic. *)
Fixpoint for_range {Mo : Type -> Type} `{MBind Mo, MRet Mo} {K V X}
    (body : X -> K -> V -> Mo X) (acc : X) (entries : list (K * V)) : Mo X :=
  match entries with
  | [] => mret acc
  | (k, v) :: rest => acc' ← body acc k v; for_range body acc' rest
  end.

Section Engine.

Context {MO : MapOrder} {EX : Externals}.

Record ConfigSnippet := {
  TargetNode : option clab.Node;
  templateName : string;
  source : string;
  templateLabels : labelMap;
  Config : list string
}.

(** What is handed to the logger, call by call. *)
Inductive LogEntry :=
| Debug_load_templates_from (tp : string)
| Error_could_not_load (err : error)
| Error_could_not_render (err : error)
| Debug_labels_json (labels : labelMap)
| Debug_render_node (longName kind : string)
| Warn_elements (link k : string) (n : nat) (v : string)
| Debug_link_pairs (link : string) (l : pairMap)
| Debug_render_link (link longName kind : string) (curL : labelMap).

(** The package state: the template cache (a nil map until the first
    load) and the log written so far. *)
Record State := {
  templates : option (gmap string (option Template));
  logs : list LogEntry
}.

Definition M (X : Type) : Type := State -> Outcome (X * State).

#[global] Instance M_ret : MRet M := fun X x st => Done (x, st).
#[global] Instance M_bind : MBind M := fun X Y f m st =>
  match m st with
  | Done (x, st') => f x st'
  | Panics e => Panics e
  end.

Definition lift {X} (o : Outcome X) : M X := fun st =>
  match o with
  | Done x => Done (x, st)
  | Panics e => Panics e
  end.

Definition logf (e : LogEntry) : M unit := fun st =>
  Done (tt, {| templates := templates st; logs := logs st ++ [e] |}).

(** [m[k]] on a map of strings: the empty string for a missing key. *)
Definition get (m : labelMap) (k : string) : string := default "" (m !! k).

(** *** Template store *)

(** [if templates == nil { templates = make(...) }] *)
Definition make_templates : M unit := fun st =>
  match templates st with
  | None => Done (tt, {| templates := Some ∅; logs := logs st |})
  | Some _ => Done (tt, st)
  end.

(** [templates[kind]] with the comma-ok form; reading a nil map finds
    nothing. *)
Definition lookup_template (kind : string) : M (option (option Template)) :=
  fun st => Done (default ∅ (templates st) !! kind, st).

(** [templates[kind] = t] *)
Definition store_template (kind : string) (t : option Template) : M unit :=
  fun st => Done (tt, {| templates := Some (<[kind := t]> (default ∅ (templates st)));
                         logs := logs st |}).

Definition LoadTemplate (fs : FileSystem) (kind templatePath : string)
  : M (option error) :=
  make_templates;;
  slot ← lookup_template kind;
  match slot with
  | Some _ => mret None
  | None =>
      let tp := filepath_Join [templatePath; kind; "*.tmpl"] in
      logf (Debug_load_templates_from tp);;
      let '(t, err) := ParseGlob fs kind tp in
      store_template kind t;;
      match err with
      | Some e => logf (Error_could_not_load e);; mret (Some e)
      | None => mret None
      end
  end.

(** *** Template renderer *)

(** [t.ExecuteTemplate(buf, name, labels)].  The method starts by reading
    a field of its receiver, so a nil [t] is a nil pointer dereference. *)
Definition ExecuteTemplate (t : option Template) (name : string)
    (labels : labelMap) : Outcome (string * option error) :=
  match t with
  | None => Panics NilPointerDereference
  | Some t => Execute t name labels
  end.

Definition RenderTemplate (kind name : string) (labels : labelMap)
  : M (ConfigSnippet + error) :=
  slot ← lookup_template kind;
  let t := default None slot in
  r ← lift (ExecuteTemplate t name labels);
  match r.2 with
  | Some err =>
      logf (Error_could_not_render err);;
      logf (Debug_labels_json labels);;
      mret (inr err)
  | None =>
      let res := Scanner_tokens r.1 in
      mret (inl {| TargetNode := None; templateName := name; source := "";
                   templateLabels := labels; Config := res |})
  end.

(** *** Node renderer *)

Definition RenderNode (node : clab.Node) : M (ConfigSnippet + error) :=
  let kind := get (clab.Labels node) "clab-node-kind" in
  logf (Debug_render_node (clab.LongName node) kind);;
  r ← RenderTemplate kind "base-node.tmpl" (clab.Labels node);
  match r with
  | inr err =>
      mret (inr ("render node " +:+ clab.LongName node +:+ " [" +:+ kind
                 +:+ "]: " +:+ err))
  | inl res =>
      mret (inl {| TargetNode := Some node; templateName := templateName res;
                   source := "node"; templateLabels := templateLabels res;
                   Config := Config res |})
  end.

(** *** Link renderer *)

Definition comma : ascii := ","%char.

(** The loop sites of [RenderLink], for [range_order]. *)
Definition site_labels : nat := 0.
Definition site_A : nat := 1.
Definition site_B : nat := 2.

(** Body of [for k, v := range link.Labels]. *)
Definition split_label (link : clab.Link) (l : pairMap) (k v : string)
  : M pairMap :=
  let r := strings_Split v comma in
  match length r with
  | 1 | 2 => mret (<[k := r]> l)
  | n => logf (Warn_elements (Link_String link) k n v);; mret l
  end.

(** [if _, ok := l["name"]; !ok { ... }] *)
Definition default_names (link : clab.Link) (l : pairMap) : pairMap :=
  match l !! "name" with
  | Some _ => l
  | None =>
      let linkNr := get (clab.LinkLabels link) "linkNr" in
      let linkNr :=
        if decide (0 < String.length linkNr) then "_" +:+ linkNr else linkNr in
      <["name" :=
          ["to_" +:+ clab.ShortName (clab.EndpointNode (clab.B link)) +:+ linkNr;
           "to_" +:+ clab.ShortName (clab.EndpointNode (clab.A link)) +:+ linkNr]]> l
  end.

(** The computed entries of [l]: the link addresses and the system
    addresses of the two nodes. *)
Definition computed_pairs (link : clab.Link) (ipA ipB : IPNet) : pairMap :=
  let l : pairMap := ∅ in
  let l := <["ip" := [IPNet_String ipA; IPNet_String ipB]]> l in
  <["systemip" :=
      [get (clab.Labels (clab.EndpointNode (clab.A link))) systemIP;
       get (clab.Labels (clab.EndpointNode (clab.B link))) systemIP]]> l.

(** [l] after the loop over the link's labels. *)
Definition split_labels (link : clab.Link) (ipA ipB : IPNet) : M pairMap :=
  for_range (split_label link) (computed_pairs link ipA ipB)
    (range_order site_labels (clab.LinkLabels link)).

(** The per-side pair mapping [l] that the two sides are built from. *)
Definition link_pairs (link : clab.Link) (ipA ipB : IPNet) : M pairMap :=
  l ← split_labels link ipA ipB;
  mret (default_names link l).

(** Body of [for k, v := range l] when [li == 0]. *)
Definition sideA_entry (curL : labelMap) (k : string) (v : list string)
  : Outcome labelMap :=
  v0 ← index v 0;
  let curL := <[k := v0]> curL in
  if decide (1 < length v) then
    v1 ← index v 1;
    mret (<[k +:+ "_far" := v1]> curL)
  else mret curL.

(** Body of [for k, v := range l] when [li == 1]. *)
Definition sideB_entry (curL : labelMap) (k : string) (v : list string)
  : Outcome labelMap :=
  if decide (length v = 1) then
    v0 ← index v 0;
    mret (<[k := v0]> curL)
  else
    v1 ← index v 1;
    let curL := <[k := v1]> curL in
    v0 ← index v 0;
    mret (<[k +:+ "_far" := v0]> curL).

Definition side_labels (li : nat) (l : pairMap) : Outcome labelMap :=
  if decide (li = 0) then for_range sideA_entry ∅ (range_order site_A l)
  else for_range sideB_entry ∅ (range_order site_B l).

(** One round of [for li := 0; li < 2; li++], up to the snippet of that
    side or the error that ends [RenderLink]. *)
Definition render_side (link : clab.Link) (l : pairMap) (li : nat)
  : M (ConfigSnippet + error) :=
  let curN := if decide (li = 0) then clab.EndpointNode (clab.A link)
              else clab.EndpointNode (clab.B link) in
  curL ← lift (side_labels li l);
  let kind := get (clab.Labels curN) "clab-node-kind" in
  logf (Debug_render_link (Link_String link) (clab.LongName curN) kind curL);;
  r ← RenderTemplate kind "base-link.tmpl" curL;
  match r with
  | inr err =>
      mret (inr ("render " +:+ Link_String link +:+ " on "
                 +:+ clab.LongName curN +:+ " (" +:+ kind +:+ "): " +:+ err))
  | inl res =>
      mret (inl {| TargetNode := Some curN; templateName := templateName res;
                   source := Link_String link;
                   templateLabels := templateLabels res;
                   Config := Config res |})
  end.

Definition RenderLink (link : clab.Link)
  : M (ConfigSnippet * ConfigSnippet + error) :=
  match linkIPfromSystemIP link with
  | inr err => mret (inr (Link_String link +:+ ": " +:+ err))
  | inl (ipA, ipB) =>
      l ← link_pairs link ipA ipB;
      logf (Debug_link_pairs (Link_String link) l);;
      rA ← render_side link l 0;
      match rA with
      | inr err => mret (inr err)
      | inl resA =>
          rB ← render_side link l 1;
          match rB with
          | inr err => mret (inr err)
          | inl res => mret (inl (resA, res))
          end
      end
  end.

End Engine.

Arguments ConfigSnippet : clear implicits.
Arguments LogEntry : clear implicits.
Arguments State {_}.
Arguments M {_} X.

(** ** A small environment to run the engine in *)

Module Demo.

(** Maps are visited in the order [map_to_list] lists them. *)
#[local] Instance order : MapOrder := {|
  range_order := fun V _ m => map_to_list m;
  range_order_perm := fun V _ m => reflexivity (map_to_list m)
|}.

Definition addr_A : string := "10.0.0.0/31".
Definition addr_B : string := "10.0.0.1/31".

(** A compiled template set is the text that any of its templates
    prints; the file system says what compiling a kind yields; the link
    addresses are fixed. *)
#[local] Instance ext : Externals := {|
  Template := string;
  FileSystem := string -> option string * option error;
  IPNet := string;
  filepath_Join := String.concat "/";
  ParseGlob := fun fs kind _ => fs kind;
  Execute := fun t _ _ => Done (t, None);
  linkIPfromSystemIP := fun _ => inl (addr_A, addr_B);
  IPNet_String := fun ip => ip;
  systemIP := "systemip";
  Link_String := fun _ => "link"
|}.

Definition disk_ok : FileSystem := fun _ => (Some "hostname r1", None).
Definition disk_broken : FileSystem := fun _ => (None, Some "parse error").

Definition empty_state : State := {| templates := None; logs := [] |}.

Definition r1 : clab.Node :=
  {| clab.ShortName := "r1"; clab.LongName := "lab-r1";
     clab.Labels := {[ "clab-node-kind" := "srl"; "systemip" := "10.0.0.1/32" ]} |}.
Definition r2 : clab.Node :=
  {| clab.ShortName := "r2"; clab.LongName := "lab-r2";
     clab.Labels := {[ "clab-node-kind" := "srl"; "systemip" := "10.0.0.2/32" ]} |}.

Definition link_with (labels : labelMap) : clab.Link :=
  {| clab.A := {| clab.EndpointNode := r1 |};
     clab.B := {| clab.EndpointNode := r2 |};
     clab.LinkLabels := labels |}.

(** A line that fills the scanner's buffer, and a state whose templates
    of kind [big] print it before a second line. *)
Fixpoint repeat_byte (c : ascii) (n : nat) : string :=
  match n with
  | 0 => EmptyString
  | S n => String c (repeat_byte c n)
  end.

Definition long_line : string := repeat_byte "a"%char MaxScanTokenSize.

Definition long_state : State :=
  {| templates := Some {[ "big" := Some (long_line +:+ String newline "end") ]};
     logs := [] |}.

(** Links between [r1] and [r2]. *)
Definition link_ports : clab.Link :=
  link_with {[ "port" := "e1,e2"; "vlan" := "10" ]}.
Definition link_far_label : clab.Link :=
  link_with {[ "x" := "a"; "x_far" := "c" ]}.
Definition link_ip_label : clab.Link :=
  link_with {[ "ip" := "9.9.9.9" ]}.
Definition link_bad_label : clab.Link :=
  link_with {[ "port" := "e1,e2"; "bad" := "1,2,3" ]}.
Definition link_bad_name : clab.Link :=
  link_with {[ "name" := "a,b,c" ]}.
Definition link_numbered : clab.Link :=
  link_with {[ "linkNr" := "3" ]}.

(** The state after a first load of kind [srl]. *)
Definition loaded_once : State :=
  {| templates := Some {[ "srl" := Some "hostname r1" ]};
     logs := [Debug_load_templates_from "/tmpl/srl/*.tmpl"] |}.

(** The state after the templates of kind [srl] were loaded. *)
Definition loaded_state : State :=
  {| templates := Some {[ "srl" := Some "hostname r1" ]}; logs := [] |}.

End Demo.

(** ** Vocabulary of the statements *)

(** The dynamic types that [slice] accepts. *)
Definition is_int (val : Value) : bool :=
  match val with VInt _ => true | _ => false end.

Definition is_string_or_seq (val : Value) : bool :=
  match val with VString _ | VSlice _ _ => true | _ => false end.

(** [len] and [cap] of a dynamic value that can be sliced, and the upper
    bound that a slice expression on it checks. *)
Definition len_of (val : Value) : Z :=
  match val with
  | VString v => len_string v
  | VSlice v _ => Z.of_nat (length v)
  | _ => 0
  end.

Definition bound_of (val : Value) : Z :=
  match val with
  | VString v => len_string v
  | VSlice v spare => Z.of_nat (length (v ++ spare))
  | _ => 0
  end.

(** The rendered output split on line boundaries, in the words of the
    specification: the pieces between the newlines, without an empty piece
    after a final newline. *)
Definition split_on_line_boundaries (out : string) : list string :=
  let pieces := strings_Split out newline in
  match last pieces with
  | Some EmptyString => removelast pieces
  | _ => pieces
  end.

(** The template set that the cache holds for a kind, if any: nothing for a
    nil cache, a missing key or a nil entry. *)
Definition cached `{EX : Externals} (st : State) (kind : string)
  : option Template :=
  default None (default ∅ (templates st) !! kind).

(** A run of [LoadTemplate] calls, each with the file system of its time. *)
Fixpoint load_all `{EX : Externals}
    (calls : list (FileSystem * string * string)) : M unit :=
  match calls with
  | [] => mret tt
  | (fs, kind, path) :: rest => LoadTemplate fs kind path;; load_all rest
  end.

(** The tokens of a link label that enter the pair mapping: the comma split
    when it has one or two tokens. *)
Definition tokens_kept (v : string) : option (list string) :=
  let r := strings_Split v ","%char in
  match length r with
  | 1 | 2 => Some r
  | _ => None
  end.

(** The warning that a label with another number of tokens leaves. *)
Definition label_warning (link : string) (kv : string * string)
  : list LogEntry :=
  match tokens_kept kv.2 with
  | Some _ => []
  | None => [Warn_elements link kv.1
               (length (strings_Split kv.2 ","%char)) kv.2]
  end.

(** The assignments [curL[...] = ...] that one entry of the pair mapping
    causes on side A and on side B, in the order they are made. *)
Definition writesA (kv : string * list string) : list (string * string) :=
  match kv.2 with
  | [] => []
  | [x] => [(kv.1, x)]
  | x :: y :: _ => [(kv.1, x); (kv.1 +:+ "_far", y)]
  end.

Definition writesB (kv : string * list string) : list (string * string) :=
  match kv.2 with
  | [] => []
  | [x] => [(kv.1, x)]
  | x :: y :: _ => [(kv.1, y); (kv.1 +:+ "_far", x)]
  end.

Definition apply_writes (cur : labelMap) (ws : list (string * string))
  : labelMap :=
  foldl (fun m kv => <[kv.1 := kv.2]> m) cur ws.

(** The near and the far value that a side takes from an entry. *)
Definition nearA (v : list string) : option string := head v.
Definition farA (v : list string) : option string := v !! 1.
Definition nearB (v : list string) : option string :=
  match v with
  | [x] => Some x
  | _ => v !! 1
  end.
Definition farB (v : list string) : option string :=
  match v with
  | x :: _ :: _ => Some x
  | _ => None
  end.

(** No attribute with two values has [q] as the name of its far value. *)
Definition far_free (l : pairMap) (q : string) : Prop :=
  forall k v, l !! k = Some v -> 1 < length v -> k +:+ "_far" <> q.

(** The state after one more log entry. *)
Definition with_log `{EX : Externals} (st : State) (e : LogEntry) : State :=
  {| templates := templates st; logs := logs st ++ [e] |}.

(** The kind of a node, as the renderers read it. *)
Definition kind_of (node : clab.Node) : string :=
  get (clab.Labels node) "clab-node-kind".

Section LinkResults.

Context {MO : MapOrder} {EX : Externals}.

Variable link : clab.Link.
Variables ipA ipB : IPNet.

(** The pair mapping after the loop over the labels, and in the end: the
    kept splits of the labels lie over the computed entries. *)
Definition split_result : pairMap :=
  omap tokens_kept (clab.LinkLabels link) ∪ computed_pairs link ipA ipB.

Definition pairs_result : pairMap := default_names link split_result.

(** The state after the loop over the labels: the warnings are logged. *)
Definition pairs_state (st : State) : State :=
  {| templates := templates st;
     logs := logs st ++
             (range_order site_labels (clab.LinkLabels link)
                ≫= label_warning (Link_String link)) |}.

(** The label maps of the two sides. *)
Definition sideA_result : labelMap :=
  apply_writes ∅ (range_order site_A pairs_result ≫= writesA).
Definition sideB_result : labelMap :=
  apply_writes ∅ (range_order site_B pairs_result ≫= writesB).

(** The state in which side A and then side B are rendered. *)
Definition sideA_state (st : State) : State :=
  with_log (with_log (pairs_state st)
              (Debug_link_pairs (Link_String link) pairs_result))
    (Debug_render_link (Link_String link)
       (clab.LongName (clab.EndpointNode (clab.A link)))
       (kind_of (clab.EndpointNode (clab.A link))) sideA_result).

Definition sideB_state (st : State) : State :=
  with_log (sideA_state st)
    (Debug_render_link (Link_String link)
       (clab.LongName (clab.EndpointNode (clab.B link)))
       (kind_of (clab.EndpointNode (clab.B link))) sideB_result).

End LinkResults.

(** ** More of the Go library *)

Module GoLib.

(** [strings.HasPrefix(s, p)]. *)
Fixpoint has_prefix (p s : string) : bool :=
  match p, s with
  | EmptyString, _ => true
  | String a p', String b s' => Ascii.eqb a b && has_prefix p' s'
  | String _ _, EmptyString => false
  end.

(** [s[n:]] and [s[:n]] for [n <= len(s)]. *)
Fixpoint drop_bytes (n : nat) (s : string) : string :=
  match n, s with
  | S n', String _ s' => drop_bytes n' s'
  | _, _ => s
  end.

Fixpoint take_bytes (n : nat) (s : string) : string :=
  match n, s with
  | S n', String c s' => String c (take_bytes n' s')
  | _, _ => EmptyString
  end.


(** The width in bytes of the first UTF-8 sequence of a string, as
    [utf8.DecodeRuneInString] reports it: the width that the first byte
    announces when the bytes that follow are there and in the accepted
    ranges, and 1 for any other byte. *)
Definition continuation (lo hi : N) (c : ascii) : bool :=
  ((lo <=? N_of_ascii c) && (N_of_ascii c <=? hi))%N.

Definition rune_len (s : string) : nat :=
  match s with
  | EmptyString => 0
  | String c0 rest =>
      let b := N_of_ascii c0 in
      if ((b <? 194) || (244 <? b))%N then 1
      else
        let sz := if (b <? 224)%N then 2 else if (b <? 240)%N then 3 else 4 in
        let lo := if (b =? 224)%N then 160%N
                  else if (b =? 240)%N then 144%N else 128%N in
        let hi := if (b =? 237)%N then 159%N
                  else if (b =? 244)%N then 143%N else 191%N in
        if Nat.ltb (String.length s) sz then 1
        else match rest with
             | String c1 rest1 =>
                 if negb (continuation lo hi c1) then 1
                 else if Nat.leb sz 2 then 2
                 else match rest1 with
                      | String c2 rest2 =>
                          if negb (continuation 128 191 c2) then 1
                          else if Nat.leb sz 3 then 3
                          else match rest2 with
                               | String c3 _ =>
                                   if negb (continuation 128 191 c3) then 1
                                   else 4
                               | EmptyString => 1
                               end
                      | EmptyString => 1
                      end
             | EmptyString => 1
             end
  end.

(** [explode(s, -1)]: the string cut into its UTF-8 sequences; a byte that
    starts no valid sequence is a piece of its own and is kept as it is.
    The fuel counts the bytes that are left. *)
Fixpoint explode_from (fuel : nat) (s : string) : list string :=
  match fuel with
  | 0 => []
  | S fuel' =>
      match s with
      | EmptyString => []
      | String _ _ =>
          let w := rune_len s in
          take_bytes w s :: explode_from fuel' (drop_bytes w s)
      end
  end.

Definition explode (s : string) : list string :=
  explode_from (String.length s) s.

(** [genSplit] for a separator that is not empty: the pieces between the
    occurrences of [sep], found from left to right.  After an occurrence
    [skip] counts the bytes of it that are still to pass. *)
Fixpoint split_sep (sep : string) (skip : nat) (s : string) : list string :=
  match s with
  | EmptyString => [EmptyString]
  | String c s' =>
      match skip with
      | S k => split_sep sep k s'
      | 0 =>
          if has_prefix sep s
          then EmptyString :: split_sep sep (String.length sep - 1) s'
          else match split_sep sep 0 s' with
               | t :: ts => String c t :: ts
               | [] => [String c EmptyString]
               end
      end
  end.

(** [strings.Split(s, sep)] for any separator. *)
Definition strings_Split_sep (s sep : string) : list string :=
  match sep with
  | EmptyString => explode s
  | String _ _ => split_sep sep 0 s
  end.

(** [strings.Join(elems, sep)]. *)
Definition strings_Join (elems : list string) (sep : string) : string :=
  String.concat sep elems.

(** [strings.Replace(s, old, new, -1)] for an [old] of one byte. *)
Fixpoint strings_Replace (s : string) (old : ascii) (new : string) : string :=
  match s with
  | EmptyString => EmptyString
  | String c s' =>
      if Ascii.eqb c old then new +:+ strings_Replace s' old new
      else String c (strings_Replace s' old new)
  end.

(** [strings.Trim(s, cutset)] for a cutset of ASCII bytes: the bytes of the
    cutset go from both ends. *)
Definition in_cutset (cutset : list ascii) (c : ascii) : bool :=
  existsb (Ascii.eqb c) cutset.

Fixpoint trim_left (cutset : list ascii) (s : string) : string :=
  match s with
  | EmptyString => EmptyString
  | String c s' => if in_cutset cutset c then trim_left cutset s' else s
  end.

Fixpoint trim_right (cutset : list ascii) (s : string) : string :=
  match s with
  | EmptyString => EmptyString
  | String c s' =>
      match trim_right cutset s' with
      | EmptyString => if in_cutset cutset c then EmptyString
                       else String c EmptyString
      | t => String c t
      end
  end.

Definition strings_Trim (s : string) (cutset : list ascii) : string :=
  trim_right cutset (trim_left cutset s).

(** [strconv.Atoi(s)]: an optional sign and decimal digits, at least one,
    with a value in the range of [int]; [None] stands for an error. *)
Definition digit_value (c : ascii) : option Z :=
  let n := N_of_ascii c in
  if ((48 <=? n) && (n <=? 57))%N then Some (Z.of_N n - 48)%Z else None.

Fixpoint parse_digits (acc : Z) (s : string) : option Z :=
  match s with
  | EmptyString => Some acc
  | String c s' =>
      match digit_value c with
      | Some d => parse_digits (acc * 10 + d) s'
      | None => None
      end
  end.

Definition strconv_Atoi (s : string) : option Z :=
  let signed :=
    match s with
    | String c digits =>
        if Ascii.eqb c "-"%char then (true, digits)
        else if Ascii.eqb c "+"%char then (false, digits)
        else (false, s)
    | EmptyString => (false, s)
    end in
  match signed.2 with
  | EmptyString => None
  | String _ _ =>
      match parse_digits 0 signed.2 with
      | Some n =>
          let v := if signed.1 then (- n)%Z else n in
          if ((int_min <=? v) && (v <=? int_max))%Z then Some v else None
      | None => None
      end
  end.

End GoLib.

Export GoLib.

(** ** The rest of the function library *)

Module FuncMap.

(** [fmt.Sprintf("%s", val)]: what is no string is printed as a bad verb. *)
Fixpoint Sprintf_s (val : Value) : string :=
  match val with
  | VNil => "%!s(<nil>)"
  | VString s => s
  | VInt n => "%!s(int=" +:+ pretty n +:+ ")"
  | VBool b => "%!s(bool=" +:+ (if b then "true" else "false") +:+ ")"
  | VSlice elems _ =>
      "[" +:+ String.concat " " (List.map Sprintf_s elems) +:+ "]"
  | VStrings l => "[" +:+ String.concat " " l +:+ "]"
  | VInts l =>
      "[" +:+ String.concat " "
                (List.map (fun n => "%!s(int=" +:+ pretty n +:+ ")") l) +:+ "]"
  end.

Definition typeof (val : Value) : string :=
  match val with
  | VString _ => "string"
  | VInt _ => "int"
  | _ => ""
  end.

Definition expect (val format : Value) : FuncResult :=
  mret (VNil, None).

Definition require (val : Value) : FuncResult :=
  match val with
  | VNil => mret (VNil, Some "required value not set")
  | _ => mret (val, None)
  end.

(** The two branches of [switch v := val.(type)] that return the default. *)
Definition is_empty_value (val : Value) : bool :=
  match val with
  | VString EmptyString => true
  | VBool false => true
  | _ => false
  end.

Definition default (val def : Value) : FuncResult :=
  match def with
  | VNil => mret (VNil, Some "default value expected")
  | _ =>
      if is_empty_value val then mret (def, None)
      else
        match val with
        | VNil => mret (def, None)
        | _ =>
            (* If we have a input value, do some type checking *)
            let tval := typeof val in
            let tdef := typeof def in
            let tval :=
              if String.eqb tval "string" && String.eqb tdef "int" then
                match val with
                | VString s =>
                    match strconv_Atoi s with
                    | Some _ => "int"
                    | None => tval
                    end
                | _ => tval
                end
              else tval in
            if negb (String.eqb tdef tval) then
              mret (val, Some ("expected type " +:+ tdef +:+ ", got " +:+ tval
                               +:+ " (value=" +:+ Sprintf_v val +:+ ")"))
            else mret (val, None)
        end
  end.


Definition split (val sep : Value) : FuncResult :=
  match val with
  | VNil => mret (VSlice [] [], None)
  | _ =>
      let s := Sprintf_v sep in
      let s := match sep with VNil => " " | _ => s end in
      let v := Sprintf_v val in
      let res := strings_Split_sep v s in
      mret (VSlice (List.map VString res) [], None)
  end.

Definition join (val sep : Value) : FuncResult :=
  let s := Sprintf_s sep in
  let s := match sep with VNil => " " | _ => s end in
  match val with
  | VSlice v _ =>
      let res := List.map Sprintf_v v in
      mret (VString (strings_Join res s), None)
  | VStrings v => mret (VString (strings_Join v s), None)
  | VInts _ =>
      mret (VString (strings_Trim
                       (strings_Replace (Sprintf_v val) " "%char s)
                       ["["%char; "]"%char]), None)
  | _ => mret (VNil, Some ("expected array [], got " +:+ Sprintf_v val))
  end.

End FuncMap.

(** [ConfigSnippet.String]: it reads the long name through [TargetNode]. *)
Definition ConfigSnippet_String (c : ConfigSnippet) : Outcome string :=
  match TargetNode c with
  | None => Panics NilPointerDereference
  | Some node =>
      Done (clab.LongName node +:+ ": " +:+ source c +:+ " "
            +:+ pretty (Z.of_nat (length (Config c))) +:+ " lines of config")
  end.

(** ** A second environment, whose templates can fail *)

Module Demo2.

(** A compiled template set is what executing any of its templates gives:
    the text written and the error. *)
#[local] Instance ext : Externals := {|
  Template := string * option error;
  FileSystem := string -> option (string * option error) * option error;
  IPNet := string;
  filepath_Join := String.concat "/";
  ParseGlob := fun fs kind _ => fs kind;
  Execute := fun t _ _ => Done t;
  linkIPfromSystemIP := fun _ => inl (Demo.addr_A, Demo.addr_B);
  IPNet_String := fun ip => ip;
  systemIP := "systemip";
  Link_String := fun _ => "link"
|}.

Definition good : string * option error := ("interface e1" +:+ String newline "", None).
Definition bad : string * option error := ("", Some "boom").

Definition r3 : clab.Node :=
  {| clab.ShortName := "r3"; clab.LongName := "lab-r3";
     clab.Labels := {[ "clab-node-kind" := "vr" ]} |}.

Definition r4 : clab.Node :=
  {| clab.ShortName := "r4"; clab.LongName := "lab-r4";
     clab.Labels := {[ "clab-node-kind" := "ghost" ]} |}.

(** Kind [srl] renders, kind [vr] fails, kind [ghost] is not loaded. *)
Definition state : State :=
  {| templates := Some {[ "srl" := Some good; "vr" := Some bad ]}; logs := [] |}.

Definition empty_state : State := {| templates := None; logs := [] |}.

Definition disk : FileSystem := fun _ => (Some good, None).

(** Two kinds whose templates print the same line, one of them without the
    final newline. *)
Definition plain : string * option error := ("interface e1", None).

Definition lines_state : State :=
  {| templates := Some {[ "srl" := Some good; "plain" := Some plain ]};
     logs := [] |}.

Definition link_to (a b : clab.Node) : clab.Link :=
  {| clab.A := {| clab.EndpointNode := a |};
     clab.B := {| clab.EndpointNode := b |};
     clab.LinkLabels := {[ "port" := "e1,e2" ]} |}.

End Demo2.

(** ** The [rare] node (package [nodes/rare]) *)

Module rare.

(** Modelled from the spec: [types.NodeConfig], declared in package
    [types]; these are the fields that the [rare] node reads and writes.
    Its maps and the pointers to it are taken to be non-nil. *)
Record NodeConfig := {
  LabDir : string;
  LongName : string;
  Env : gmap string string;
  Binds : list string
}.

(** Modelled from the spec: an endpoint of a node, of which the [rare]
    node asks the interface name ([GetIfaceName]). *)
Record Endpoint := { IfaceName : string }.

(** The [rare] node: the embedded [nodes.DefaultNode] with its
    configuration and its endpoints. *)
Record node := {
  Cfg : NodeConfig;
  Endpoints : list Endpoint
}.

(** What the node does to its host, in the order it does it. *)
Inductive Event :=
| Exec (args : list string)
| Info_not_yet_running (longName : string)
| Sleep (seconds : nat).

(** The host: what running a command ([exec.Command(...).CombinedOutput()])
    gives in a state of the world, and the state it leaves. *)
Class Host := {
  World : Type;
  CombinedOutput : list string -> World -> (string * option error) * World
}.

(** [fmt.Sprintf("CLAB_INTF_%d", i)] *)
Definition intf_key (i : nat) : string :=
  "CLAB_INTF_" +:+ pretty (Z.of_nat i).

(** [for i, e := range n.Endpoints { ... }], from index [i] on. *)
Fixpoint endpoints_env (i : nat) (eps : list Endpoint)
    (env : gmap string string) : gmap string string :=
  match eps with
  | [] => env
  | e :: rest =>
      let ifaceName := IfaceName e in
      let envKey := intf_key (i + 1) in
      endpoints_env (S i) rest (<[envKey := ifaceName]> env)
  end.

Definition genInterfacesEnv (n : node) : node :=
  (* Add eth0 manually *)
  let env := <["CLAB_INTF_0" := "eth0"]> (Env (Cfg n)) in
  let env := endpoints_env 0 (Endpoints n) env in
  {| Cfg := {| LabDir := LabDir (Cfg n); LongName := LongName (Cfg n);
               Env := env; Binds := Binds (Cfg n) |};
     Endpoints := Endpoints n |}.

Section PostDeploy.

Context {H : Host}.

Definition inspect_running (longName : string) : list string :=
  ["docker"; "inspect"; "-f"; "{{.State.Running}}"; longName].

Definition sysctl_write (longName setting : string) : list string :=
  ["docker"; "exec"; longName; "sysctl"; "-w"; setting].

(** [err != nil || string(output) != "true\n"] *)
Definition not_running (r : string * option error) : bool :=
  match r.2 with
  | Some _ => true
  | None => negb (String.eqb r.1 ("true" +:+ String newline ""))
  end.

(** The retry loop that waits for the container.  It has no bound of its
    own: the fuel counts the polls that are granted, and [None] says that
    the container was not running at any of them. *)
Fixpoint wait_running (fuel : nat) (longName : string) (w : World)
    (tr : list Event) : option (World * list Event) :=
  match fuel with
  | 0 => None
  | S fuel' =>
      let cmd := inspect_running longName in
      let r := CombinedOutput cmd w in
      if not_running r.1 then
        wait_running fuel' longName r.2
          (tr ++ [Exec cmd; Info_not_yet_running longName; Sleep 2])
      else Some (r.2, tr ++ [Exec cmd])
  end.

(** [for i := 0; ; i++] over the interface variables, from index [i] on.
    The fuel bounds the rounds; [None] says that it ran out. *)
Fixpoint disable_interfaces (fuel i : nat) (cfg : NodeConfig) (w : World)
    (tr : list Event) : option (option error * World * list Event) :=
  match fuel with
  | 0 => None
  | S fuel' =>
      let envKey := intf_key i in
      match Env cfg !! envKey with
      | Some iface =>
          let cmd := sysctl_write (LongName cfg)
                       ("net.ipv6.conf." +:+ iface +:+ ".disable_ipv6=1") in
          let r := CombinedOutput cmd w in
          match r.1.2 with
          | Some _ =>
              Some (Some ("Failed to disable IPv6 on interface " +:+ iface
                          +:+ " of container " +:+ LongName cfg),
                    r.2, tr ++ [Exec cmd])
          | None => disable_interfaces fuel' (S i) cfg r.2 (tr ++ [Exec cmd])
          end
      | None => Some (None, w, tr)
      end
  end.

Definition sysctlCommands : list string :=
  ["net.ipv6.conf.all.disable_ipv6=1"; "net.ipv6.conf.default.disable_ipv6=1"].

(** [for _, sysctlCmd := range sysctlCommands { ... }] *)
Fixpoint disable_globally (cmds : list string) (cfg : NodeConfig) (w : World)
    (tr : list Event) : option error * World * list Event :=
  match cmds with
  | [] => (None, w, tr)
  | sysctlCmd :: rest =>
      let cmd := sysctl_write (LongName cfg) sysctlCmd in
      let r := CombinedOutput cmd w in
      match r.1.2 with
      | Some _ =>
          (Some ("Failed to execute sysctl command " +:+ sysctlCmd
                 +:+ " on container " +:+ LongName cfg),
           r.2, tr ++ [Exec cmd])
      | None => disable_globally rest cfg r.2 (tr ++ [Exec cmd])
      end
  end.

(** [PostDeploy], with the polls that the wait is granted.  The loop over
    the interface variables gets one round more than the environment has
    entries. *)
Definition PostDeploy (polls : nat) (n : node) (w : World)
  : option (option error * World * list Event) :=
  match wait_running polls (LongName (Cfg n)) w [] with
  | None => None
  | Some (w1, tr1) =>
      match disable_interfaces (S (size (Env (Cfg n)))) 0 (Cfg n) w1 tr1 with
      | None => None
      | Some (Some err, w2, tr2) => Some (Some err, w2, tr2)
      | Some (None, w2, tr2) =>
          Some (disable_globally sysctlCommands (Cfg n) w2 tr2)
      end
  end.

(** The sysctl commands for a list of interfaces, run in order up to the
    first that fails. *)
Fixpoint run_for_interfaces (ifaces : list string) (cfg : NodeConfig)
    (w : World) (tr : list Event) : option error * World * list Event :=
  match ifaces with
  | [] => (None, w, tr)
  | iface :: rest =>
      let cmd := sysctl_write (LongName cfg)
                   ("net.ipv6.conf." +:+ iface +:+ ".disable_ipv6=1") in
      let r := CombinedOutput cmd w in
      match r.1.2 with
      | Some _ =>
          (Some ("Failed to disable IPv6 on interface " +:+ iface
                 +:+ " of container " +:+ LongName cfg),
           r.2, tr ++ [Exec cmd])
      | None => run_for_interfaces rest cfg r.2 (tr ++ [Exec cmd])
      end
  end.

(** The world after a number of polls of the container. *)
Fixpoint after_polls (k : nat) (longName : string) (w : World) : World :=
  match k with
  | 0 => w
  | S k' => after_polls k' longName (CombinedOutput (inspect_running longName) w).2
  end.

(** The events of [k] polls that found the container not running. *)
Fixpoint waiting_events (k : nat) (longName : string) : list Event :=
  match k with
  | 0 => []
  | S k' => [Exec (inspect_running longName); Info_not_yet_running longName;
             Sleep 2] ++ waiting_events k' longName
  end.

End PostDeploy.

(** A host where every command succeeds and the container runs from the
    third poll on; the world counts the commands. *)
#[local] Instance demo_host : Host := {|
  World := nat;
  CombinedOutput := fun args w =>
    (if Nat.leb 2 w then ("true" +:+ String newline "", None)
     else ("false" +:+ String newline "", None), S w)
|}.

Definition demo_node : node :=
  {| Cfg := {| LabDir := "/lab"; LongName := "clab-r1";
               Env := {[ "HOME" := "/root" ]}; Binds := [] |};
     Endpoints := [ {| IfaceName := "eth1" |}; {| IfaceName := "eth2" |} ] |}.

End rare.

(** ** Vocabulary of the further statements *)

(** The dynamic types that [join] accepts. *)
Definition is_sequence (val : Value) : bool :=
  match val with VSlice _ _ | VStrings _ | VInts _ => true | _ => false end.

(** The values that [default] replaces. *)
Definition is_unset (val : Value) : bool :=
  match val with
  | VNil | VString EmptyString | VBool false => true
  | _ => false
  end.

(** The pairs of a value and a default that pass the type check of
    [default]: a string with a string, an integer or a string that
    [strconv.Atoi] reads with an integer, and anything that is neither a
    string nor an integer with a default that is neither. *)
Definition reconciles (val def : Value) : bool :=
  match def with
  | VString _ => match val with VString _ => true | _ => false end
  | VInt _ =>
      match val with
      | VInt _ => true
      | VString s => match strconv_Atoi s with Some _ => true | None => false end
      | _ => false
      end
  | _ => match val with VString _ | VInt _ => false | _ => true end
  end.

(** The separator that [split] and [join] use for a string or a missing
    separator. *)
Definition separator_of (sep : Value) : string :=
  match sep with
  | VNil => " "
  | _ => Sprintf_v sep
  end.

(** A string without one final newline. *)
Fixpoint chomp (out : string) : string :=
  match out with
  | EmptyString => EmptyString
  | String c EmptyString =>
      if Ascii.eqb c newline then EmptyString else out
  | String c rest => String c (chomp rest)
  end.

(** The last byte of a string. *)
Fixpoint last_byte (s : string) : option ascii :=
  match s with
  | EmptyString => None
  | String c EmptyString => Some c
  | String _ rest => last_byte rest
  end.

(** ** Properties of the runtime model *)

Section SplitFacts.

Variable sep : ascii.

Lemma strings_Split_nonempty s : strings_Split s sep <> [].
Proof.
  destruct s as [|c s]; simpl; [discriminate|].
  destruct (Ascii.eqb c sep); [discriminate|].
  destruct (strings_Split s sep); discriminate.
Qed.

Lemma strings_Split_length s : 1 <= length (strings_Split s sep).
Proof.
  pose proof (strings_Split_nonempty s).
  destruct (strings_Split s sep); simpl; [congruence | lia].
Qed.

(** Without the separator there is one piece, the string itself. *)
Lemma strings_Split_absent s :
  contains_byte s sep = false -> strings_Split s sep = [s].
Proof.
  induction s as [|c s IH]; simpl; [done|].
  intros Hc. apply orb_false_iff in Hc as [Hc Hs].
  rewrite Hc, (IH Hs). done.
Qed.

(** The first piece ends at the first separator. *)
Lemma strings_Split_at_first x y :
  contains_byte x sep = false ->
  strings_Split (x +:+ String sep y) sep = x :: strings_Split y sep.
Proof.
  induction x as [|c x IH]; simpl.
  - intros _. by rewrite Ascii.eqb_refl.
  - intros Hc. apply orb_false_iff in Hc as [Hc Hx].
    rewrite Hc, (IH Hx). done.
Qed.

(** A separator in the string gives at least two pieces. *)
Lemma strings_Split_present s :
  contains_byte s sep = true -> 2 <= length (strings_Split s sep).
Proof.
  induction s as [|c s IH]; simpl; [done|].
  destruct (Ascii.eqb c sep); simpl.
  - intros _. pose proof (strings_Split_length s). lia.
  - intros Hs. specialize (IH Hs).
    destruct (strings_Split s sep); simpl in *; lia.
Qed.

End SplitFacts.

Lemma wrap_int_id z : in_int z -> wrap_int z = z.
Proof.
  unfold in_int, int_min, int_max, wrap_int. intros Hz.
  rewrite Z.mod_small; lia.
Qed.

(** Counting from the end: a negative index of the machine's range moves up
    by the length. *)
Lemma from_end_negative i n :
  in_int i -> (i < 0)%Z -> (0 <= n <= int_max)%Z -> from_end i n = (i + n)%Z.
Proof.
  intros Hi Hneg Hn. unfold from_end.
  destruct (Z.ltb_spec i 0); [|lia].
  apply wrap_int_id. unfold in_int, int_min, int_max in *. lia.
Qed.

Lemma from_end_nonnegative i n : (0 <= i)%Z -> from_end i n = i.
Proof. intros Hi. unfold from_end. destruct (Z.ltb_spec i 0); [lia | done]. Qed.

(** ** The function library *)

(** With a slash in the value, [ipmask] gives what follows the first slash,
    up to the next one. *)
Lemma ipmask_after_slash addr prefix :
  contains_byte addr slash = false ->
  contains_byte prefix slash = false ->
  ipmask (VString (addr +:+ String slash prefix)) = Done (VString prefix, None).
Proof.
  intros Ha Hp. unfold ipmask. simpl Sprintf_v.
  rewrite (strings_Split_at_first _ _ _ Ha), (strings_Split_absent _ _ Hp).
  reflexivity.
Qed.

(** C2: for a value whose string form has no slash, [ipmask] does not
    return an error: the unguarded [a[1]] on the one-element split panics
    with an index out of range. *)
Theorem ipmask_without_slash_panics (val : Value) :
  contains_byte (Sprintf_v val) slash = false ->
  ipmask val = Panics (IndexOutOfRange 1 1).
Proof.
  intros Hno. unfold ipmask.
  rewrite (strings_Split_absent _ _ Hno). reflexivity.
Qed.

Lemma ipmask_without_slash_panics_witness :
  ipmask (VString "10.0.0.1") = Panics (IndexOutOfRange 1 1).
Proof. apply ipmask_without_slash_panics. reflexivity. Defined.

Lemma slice_string_panics v lo hi :
  (exists p, slice_string v lo hi = Panics p) <->
  ~ (0 <= lo <= hi /\ hi <= len_string v)%Z.
Proof.
  unfold slice_string.
  destruct (Z.leb_spec 0 lo), (Z.leb_spec lo hi), (Z.leb_spec hi (len_string v));
    simpl; split; try lia; try (intros [p Hp]; discriminate); eauto.
Qed.

Lemma slice_slice_panics {X} (elems spare : list X) lo hi :
  (exists p, slice_slice elems spare lo hi = Panics p) <->
  ~ (0 <= lo <= hi /\ hi <= Z.of_nat (length (elems ++ spare)))%Z.
Proof.
  unfold slice_slice.
  destruct (Z.leb_spec 0 lo), (Z.leb_spec lo hi),
    (Z.leb_spec hi (Z.of_nat (length (elems ++ spare))));
    simpl; split; try lia; try (intros [p Hp]; discriminate); eauto.
Qed.

(** On a string, an end beyond the length and a start that stays negative
    after the adjustment are both out of range. *)
Lemma slice_string_beyond v s e :
  in_int s -> in_int e -> (len_string v <= int_max)%Z ->
  (len_string v < e \/ s < - len_string v)%Z ->
  exists p, slice (VString v) (VInt s) (VInt e) = Panics p.
Proof.
  intros Hs He Hv Hout.
  assert (0 <= len_string v)%Z as Hlen by (unfold len_string; lia).
  destruct (proj2 (slice_string_panics v (from_end s (len_string v))
                     (from_end e (len_string v)))) as [p Hp].
  { destruct Hout as [Hout|Hout].
    - rewrite (from_end_nonnegative e) by lia. lia.
    - rewrite (from_end_negative s) by (auto; lia). lia. }
  exists p. cbn [slice]. by rewrite Hp.
Qed.

(** C10: [slice] returns an error exactly when the start or the end is not
    an integer or the value is neither a string nor a generic sequence.  On
    a string or a generic sequence with integer indices it evaluates the
    slice expression unguarded: it panics exactly when the indices, after
    the adjustment of negative ones, are not ordered within the bounds that
    the expression checks. *)
Theorem slice_errors_and_panics (val start end_ : Value) :
  ((exists x err, slice val start end_ = Done (x, Some err)) <->
   is_int start && is_int end_ && is_string_or_seq val = false) /\
  (forall s e, start = VInt s -> end_ = VInt e ->
     is_string_or_seq val = true ->
     let lo := from_end s (len_of val) in
     let hi := from_end e (len_of val) in
     (~ (0 <= lo <= hi /\ hi <= bound_of val)%Z ->
      slice val start end_ =
        Panics (SliceBoundsOutOfRange lo hi (Z.to_nat (bound_of val)))) /\
     ((0 <= lo <= hi /\ hi <= bound_of val)%Z ->
      exists r, slice val start end_ = Done (r, None))).
Proof.
  split.
  - destruct start; simpl; try (split; [done | eauto]).
    destruct end_; simpl; try (split; [done | eauto]).
    destruct val; simpl; try (split; [done | eauto]).
    + unfold slice_string. case_match; simpl; split; try done;
        intros (x & err & Heq); discriminate.
    + unfold slice_slice. case_match; simpl; split; try done;
        intros (x & err & Heq); discriminate.
  - intros s e -> -> Hval lo hi.
    destruct val; try discriminate; simpl in *; subst lo hi.
    + unfold slice_string, len_string.
      rewrite Nat2Z.id.
      destruct (Z.leb_spec 0 (from_end s (Z.of_nat (String.length s0)))),
        (Z.leb_spec (from_end s (Z.of_nat (String.length s0)))
                    (from_end e (Z.of_nat (String.length s0)))),
        (Z.leb_spec (from_end e (Z.of_nat (String.length s0)))
                    (Z.of_nat (String.length s0)));
        simpl; split; intros; try lia; eauto.
    + unfold slice_slice. rewrite Nat2Z.id.
      destruct (Z.leb_spec 0 (from_end s (Z.of_nat (length elems)))),
        (Z.leb_spec (from_end s (Z.of_nat (length elems)))
                    (from_end e (Z.of_nat (length elems)))),
        (Z.leb_spec (from_end e (Z.of_nat (length elems)))
                    (Z.of_nat (length (elems ++ spare))));
        simpl; split; intros; try lia; eauto.
Qed.

Lemma slice_errors_and_panics_witness :
  slice (VString "abcdef") (VInt 1) (VInt 7)
    = Panics (SliceBoundsOutOfRange 1 7 6) /\
  slice (VSlice [VInt 1; VInt 2; VInt 3] []) (VInt (-5)) (VInt 3)
    = Panics (SliceBoundsOutOfRange (-2) 3 3).
Proof.
  split.
  - apply (proj2 (slice_errors_and_panics (VString "abcdef") (VInt 1) (VInt 7))
             1%Z 7%Z eq_refl eq_refl eq_refl).
    vm_compute. intros [_ H]; apply H; reflexivity.
  - apply (proj2 (slice_errors_and_panics
                    (VSlice [VInt 1; VInt 2; VInt 3] []) (VInt (-5)) (VInt 3))
             (-5)%Z 3%Z eq_refl eq_refl eq_refl).
    vm_compute. intros [[H _] _]; apply H; reflexivity.
Defined.

(** ** The scanner and the template renderer *)

Lemma last_cons_nonempty {X} (x : X) (l : list X) :
  l <> [] -> last (x :: l) = last l.
Proof. destruct l; [congruence | done]. Qed.

(** The runs that the scanner sees are the line split of the
    specification. *)
Lemma raw_lines_split out : raw_lines out = split_on_line_boundaries out.
Proof.
  unfold split_on_line_boundaries.
  induction out as [|c rest IH]; [done|].
  pose proof (strings_Split_nonempty newline rest) as Hne.
  cbn [raw_lines strings_Split].
  destruct (Ascii.eqb c newline).
  - rewrite IH, (last_cons_nonempty _ _ Hne).
    destruct (strings_Split rest newline) as [|t ts] eqn:Hs; [done|].
    destruct (last (t :: ts)) as [[|]|]; done.
  - rewrite IH.
    destruct (strings_Split rest newline) as [|t ts] eqn:Hs; [done|].
    destruct ts as [|t' ts].
    + destruct t; done.
    + change (last (String c t :: t' :: ts)) with (last (t :: t' :: ts)).
      destruct (last (t :: t' :: ts)) as [[|]|]; done.
Qed.

(** While every line is shorter than the buffer, the tokens are the lines in
    their order, each without its trailing carriage return. *)
Lemma Scanner_tokens_short_lines out :
  Forall (fun line => String.length line < MaxScanTokenSize)
         (split_on_line_boundaries out) ->
  Scanner_tokens out = List.map dropCR (split_on_line_boundaries out).
Proof.
  unfold Scanner_tokens. rewrite raw_lines_split.
  induction 1 as [|line lines Hfit _ IH]; [done|].
  cbn [scan_while_fits List.map]. unfold fits.
  destruct (Nat.ltb_spec (String.length line) MaxScanTokenSize); [|lia].
  by rewrite IH.
Qed.

Lemma raw_lines_first line rest :
  contains_byte line newline = false ->
  raw_lines (line +:+ String newline rest) = line :: raw_lines rest.
Proof.
  induction line as [|c line IH].
  - intros _. change (raw_lines (String newline rest) = "" :: raw_lines rest).
    cbn [raw_lines]. by rewrite Ascii.eqb_refl.
  - intros Hc. cbn [contains_byte] in Hc. apply orb_false_iff in Hc as [Hc Hl].
    change (raw_lines (String c (line +:+ String newline rest))
            = String c line :: raw_lines rest).
    cbn [raw_lines]. rewrite Hc, (IH Hl). done.
Qed.

Section Renderer.

Context {MO : MapOrder} {EX : Externals}.

(** With a template set in the cache, [RenderTemplate] returns what the
    execution of the template gives, scanned into lines. *)
Lemma RenderTemplate_loaded st kind name labels t out :
  cached st kind = Some t ->
  Execute t name labels = Done (out, None) ->
  RenderTemplate kind name labels st =
    Done (inl {| TargetNode := None; templateName := name; source := "";
                 templateLabels := labels; Config := Scanner_tokens out |}, st).
Proof.
  unfold cached, RenderTemplate, lookup_template. intros Ht Hexec.
  unfold mbind, M_bind, lift. rewrite Ht. simpl. rewrite Hexec. done.
Qed.

(** A successful call leaves the state as it was and scans the output. *)
Lemma RenderTemplate_success st kind name labels res st' :
  RenderTemplate kind name labels st = Done (inl res, st') ->
  exists t out,
    cached st kind = Some t /\ Execute t name labels = Done (out, None) /\
    st' = st /\ Config res = Scanner_tokens out /\
    templateLabels res = labels.
Proof.
  unfold cached, RenderTemplate, lookup_template, mbind, M_bind, lift.
  destruct (default None (default ∅ (templates st) !! kind)) as [t|];
    [|discriminate].
  simpl. destruct (Execute t name labels) as [[out [err|]]|] eqn:Hexec;
    simpl; [discriminate| |discriminate].
  intros [= <- <-]. exists t, out. done.
Qed.

(** C4: a rendered line of [MaxScanTokenSize] bytes or more makes the
    scanner give up, which the loop takes for the end of the output: the
    call succeeds with that line and all that follows it missing from
    [Config]. *)
Theorem RenderTemplate_long_line_lost st kind name labels t line rest :
  cached st kind = Some t ->
  Execute t name labels = Done (line +:+ String newline rest, None) ->
  contains_byte line newline = false ->
  MaxScanTokenSize <= String.length line ->
  exists res,
    RenderTemplate kind name labels st = Done (inl res, st) /\
    Config res = [] /\
    split_on_line_boundaries (line +:+ String newline rest)
      = line :: split_on_line_boundaries rest.
Proof.
  intros Ht Hexec Hline Hlong.
  eexists. split; [by apply (RenderTemplate_loaded _ _ _ _ t _ Ht Hexec)|].
  cbn [Config]. rewrite <- !raw_lines_split.
  unfold Scanner_tokens. rewrite (raw_lines_first _ _ Hline).
  split; [|done]. cbn [scan_while_fits]. unfold fits.
  destruct (Nat.ltb_spec (String.length line) MaxScanTokenSize); [lia | done].
Qed.

End Renderer.

Lemma RenderTemplate_long_line_lost_witness :
  exists res,
    RenderTemplate (EX:=Demo.ext) "big" "base-node.tmpl" ∅ Demo.long_state
      = Done (inl res, Demo.long_state) /\
    Config res = [] /\
    split_on_line_boundaries (Demo.long_line +:+ String newline "end")
      = Demo.long_line :: split_on_line_boundaries "end".
Proof.
  apply (RenderTemplate_long_line_lost (EX:=Demo.ext) Demo.long_state
           "big" "base-node.tmpl" ∅
           (Demo.long_line +:+ String newline "end") Demo.long_line "end").
  - unfold cached, Demo.long_state. cbn [templates default from_option id].
    by rewrite lookup_singleton_eq.
  - cbv [Execute Demo.ext]. reflexivity.
  - vm_compute. reflexivity.
  - apply Nat.leb_le. vm_compute. reflexivity.
Defined.

Section RendererFacts.

Context {MO : MapOrder} {EX : Externals}.

(** Successful renders whose lines all fit the scanner's buffer carry the
    lines of the output, in order, none added and none left out. *)
Lemma RenderTemplate_short_lines st kind name labels res st' :
  RenderTemplate kind name labels st = Done (inl res, st') ->
  exists out,
    (Forall (fun line => String.length line < MaxScanTokenSize)
            (split_on_line_boundaries out) ->
     Config res = List.map dropCR (split_on_line_boundaries out)) /\
    exists t, cached st kind = Some t /\
              Execute t name labels = Done (out, None).
Proof.
  intros Hr. apply RenderTemplate_success in Hr
    as (t & out & Ht & Hexec & _ & Hcfg & _).
  exists out. split; [|by exists t].
  intros Hfit. by rewrite Hcfg, Scanner_tokens_short_lines.
Qed.

Lemma RenderTemplate_nil_template st kind name labels :
  cached st kind = None ->
  RenderTemplate kind name labels st = Panics NilPointerDereference.
Proof.
  unfold cached, RenderTemplate, lookup_template, mbind, M_bind, lift.
  intros ->. done.
Qed.

End RendererFacts.

(** ** The template store *)

Section Store.

Context {EX : Externals}.

(** A kind whose slot is taken is not compiled: the call returns success
    and leaves the state, log included, as it was, whatever the files. *)
Lemma LoadTemplate_cached fs kind path st m slot :
  templates st = Some m -> m !! kind = Some slot ->
  LoadTemplate fs kind path st = Done (None, st).
Proof.
  intros Hm Hslot.
  unfold LoadTemplate, mbind, M_bind, make_templates, lookup_template.
  rewrite Hm. cbn [default from_option id]. rewrite Hm.
  cbn [default from_option id]. rewrite Hslot. done.
Qed.

(** Every call returns, with the cache made, the kind's slot taken and the
    other slots as they were. *)
Lemma LoadTemplate_returns fs kind path st :
  exists r st' m',
    LoadTemplate fs kind path st = Done (r, st') /\
    templates st' = Some m' /\ is_Some (m' !! kind) /\
    (forall k slot, default ∅ (templates st) !! k = Some slot ->
                    m' !! k = Some slot).
Proof.
  unfold LoadTemplate, mbind, M_bind, make_templates, lookup_template,
    store_template, logf.
  destruct (templates st) as [m|] eqn:Hm; cbn [default from_option id templates].
  - rewrite Hm. cbn [default from_option id].
    destruct (m !! kind) as [slot|] eqn:Hslot.
    + exists None, st, m. rewrite Hm. by rewrite Hslot.
    + destruct (ParseGlob fs kind _) as [t [e|]];
        cbn [templates logs default from_option id]; rewrite Hm;
        cbn [default from_option id];
        do 2 eexists; exists (<[kind := t]> m);
        (split; [reflexivity|]); cbn [templates];
        (split; [done|]); (split; [by rewrite lookup_insert_eq|]);
        intros k slot Hk; rewrite lookup_insert_ne; [done|congruence| done | congruence].
  - rewrite lookup_empty.
    destruct (ParseGlob fs kind _) as [t [e|]];
      cbn [templates logs default from_option id];
      do 2 eexists; exists (<[kind := t]> ∅);
      (split; [reflexivity|]); cbn [templates];
      (split; [done|]); (split; [by rewrite lookup_insert_eq|]);
      intros k slot Hk; by rewrite lookup_empty in Hk.
Qed.

(** Further loads keep a slot that is taken. *)
Lemma load_all_keeps calls st m kind slot :
  templates st = Some m -> m !! kind = Some slot ->
  exists st' m', load_all calls st = Done (tt, st') /\
                 templates st' = Some m' /\ m' !! kind = Some slot.
Proof.
  revert st m. induction calls as [|[[fs k] path] calls IH]; intros st m Hm Hslot.
  - exists st, m. done.
  - destruct (LoadTemplate_returns fs k path st) as (r & st1 & m1 & Hload & Hm1 & _ & Hkeep).
    destruct (IH st1 m1 Hm1) as (st' & m' & Hall & Hm' & Hslot').
    { apply Hkeep. rewrite Hm. done. }
    exists st', m'. split; [|done].
    cbn [load_all]. unfold mbind, M_bind. rewrite Hload. done.
Qed.

(** C8: when the compilation of a kind fails, [LoadTemplate] has already
    stored what [ParseGlob] returned under the kind: the slot is taken,
    and every later call for the kind returns success without compiling,
    whatever the files are by then. *)
Theorem failed_load_takes_slot fs kind path st t e :
  default ∅ (templates st) !! kind = None ->
  ParseGlob fs kind (filepath_Join [path; kind; "*.tmpl"]) = (t, Some e) ->
  exists st',
    LoadTemplate fs kind path st = Done (Some e, st') /\
    default ∅ (templates st') !! kind = Some t /\
    forall fs' path', LoadTemplate fs' kind path' st' = Done (None, st').
Proof.
  intros Hfree Hparse.
  exists {| templates := Some (<[kind := t]> (default ∅ (templates st)));
            logs := (logs st ++ [Debug_load_templates_from
                                   (filepath_Join [path; kind; "*.tmpl"])])
                    ++ [Error_could_not_load e] |}.
  split; [|split].
  - unfold LoadTemplate, mbind, M_bind, make_templates, lookup_template,
      store_template, logf.
    destruct (templates st) as [m|] eqn:Hm;
      cbn [default from_option id templates logs] in *.
    + rewrite Hm. cbn [default from_option id]. rewrite Hfree, Hparse.
      cbn [templates logs]. rewrite Hm. reflexivity.
    + rewrite lookup_empty, Hparse. cbn [templates logs]. reflexivity.
  - cbn [templates default from_option id]. by rewrite lookup_insert_eq.
  - intros fs' path'. eapply LoadTemplate_cached; [reflexivity|].
    by rewrite lookup_insert_eq.
Qed.

(** C9: once a load of a kind has returned success, every later load of
    the kind, after any further loads, returns success and leaves the
    state and the log untouched whatever the files are, so nothing is
    compiled again; the kind's slot holds what it held after the first
    call. *)
Theorem LoadTemplate_idempotent fs kind path st st1 calls :
  LoadTemplate fs kind path st = Done (None, st1) ->
  exists st2,
    load_all calls st1 = Done (tt, st2) /\
    default ∅ (templates st2) !! kind = default ∅ (templates st1) !! kind /\
    forall fs' path', LoadTemplate fs' kind path' st2 = Done (None, st2).
Proof.
  intros Hload.
  destruct (LoadTemplate_returns fs kind path st)
    as (r & st1' & m1 & Hload' & Hm1 & [slot Hslot] & _).
  rewrite Hload in Hload'. injection Hload' as <- <-.
  destruct (load_all_keeps calls st1 m1 kind slot Hm1 Hslot)
    as (st2 & m2 & Hall & Hm2 & Hslot2).
  exists st2. split; [done|]. split.
  - rewrite Hm1, Hm2. cbn [default from_option id]. congruence.
  - intros fs' path'. by eapply LoadTemplate_cached.
Qed.

End Store.

Lemma failed_load_takes_slot_witness :
  exists st',
    LoadTemplate (EX:=Demo.ext) Demo.disk_broken "srl" "/tmpl" Demo.empty_state
      = Done (Some "parse error", st') /\
    default ∅ (templates st') !! "srl" = Some None /\
    forall fs' path', LoadTemplate (EX:=Demo.ext) fs' "srl" path' st' = Done (None, st').
Proof.
  apply (failed_load_takes_slot (EX:=Demo.ext) Demo.disk_broken "srl" "/tmpl"
           Demo.empty_state None "parse error").
  - reflexivity.
  - reflexivity.
Defined.

Lemma LoadTemplate_idempotent_witness :
  exists st2,
    load_all (EX:=Demo.ext)
      [(Demo.disk_broken, "ceos", "/tmpl"); (Demo.disk_broken, "srl", "/tmpl")]
      Demo.loaded_once = Done (tt, st2) /\
    default ∅ (templates st2) !! "srl"
      = default ∅ (templates Demo.loaded_once) !! "srl" /\
    forall fs' path',
      LoadTemplate (EX:=Demo.ext) fs' "srl" path' st2 = Done (None, st2).
Proof.
  apply (LoadTemplate_idempotent (EX:=Demo.ext) Demo.disk_ok "srl" "/tmpl"
           Demo.empty_state Demo.loaded_once).
  reflexivity.
Defined.

(** ** The link renderer *)

(** *** Strings with a suffix *)

Lemma string_length_app (s1 s2 : string) :
  String.length (s1 +:+ s2) = String.length s1 + String.length s2.
Proof. induction s1 as [|c s1 IH]; simpl; [done | by rewrite IH]. Qed.

Lemma string_app_inj_r (s1 s2 suffix : string) :
  s1 +:+ suffix = s2 +:+ suffix -> s1 = s2.
Proof.
  revert s2. induction s1 as [|c s1 IH]; intros [|d s2] Heq; simpl in *.
  - done.
  - apply (f_equal String.length) in Heq.
    rewrite ?string_length_app in Heq. simpl in Heq.
    rewrite ?string_length_app in Heq. lia.
  - apply (f_equal String.length) in Heq.
    rewrite ?string_length_app in Heq. simpl in Heq.
    rewrite ?string_length_app in Heq. lia.
  - injection Heq as -> Heq. by rewrite (IH _ Heq).
Qed.

Lemma string_app_nonempty_ne (s suffix : string) :
  suffix <> "" -> s +:+ suffix <> s.
Proof.
  intros Hne Heq. apply (f_equal String.length) in Heq.
  rewrite string_length_app in Heq. destruct suffix; [done | simpl in Heq; lia].
Qed.

(** *** Assignments to a label map, one after the other *)

Lemma apply_writes_untouched ws cur q :
  q ∉ ws.*1 -> apply_writes cur ws !! q = cur !! q.
Proof.
  revert cur. induction ws as [|[k x] ws IH]; intros cur Hq; [done|].
  cbn [apply_writes foldl fst snd] in *.
  apply not_elem_of_cons in Hq as [Hne Hq].
  change (apply_writes (<[k := x]> cur) ws !! q = cur !! q).
  rewrite (IH _ Hq). by rewrite lookup_insert_ne.
Qed.

(** When every assignment to a key gives it the same value, the key ends
    with that value, in whatever order the assignments are made. *)
Lemma apply_writes_agreed ws cur q x :
  (q, x) ∈ ws -> (forall y, (q, y) ∈ ws -> y = x) ->
  apply_writes cur ws !! q = Some x.
Proof.
  revert cur. induction ws as [|[k y] ws IH]; intros cur Hin Hall.
  { by apply elem_of_nil in Hin. }
  change (apply_writes (<[k := y]> cur) ws !! q = Some x).
  destruct (decide (q ∈ ws.*1)) as [Hq|Hq].
  - apply list_elem_of_fmap in Hq as ([q' x'] & -> & Hq). cbn [fst] in *.
    assert (x' = x) as -> by (apply Hall; by right).
    apply IH; [done|]. intros z Hz. apply Hall. by right.
  - rewrite (apply_writes_untouched _ _ _ Hq).
    apply elem_of_cons in Hin as [[= <- <-]|Hin].
    + by rewrite lookup_insert_eq.
    + exfalso. apply Hq. apply list_elem_of_fmap. by exists (q, x).
Qed.

(** *** The loops of [RenderLink] *)

Section LinkLoops.

Context {MO : MapOrder} {EX : Externals}.

Lemma range_order_elem {V} site (m : gmap string V) k v :
  (k, v) ∈ range_order site m <-> m !! k = Some v.
Proof. rewrite (range_order_perm V site m). apply elem_of_map_to_list. Qed.

Lemma range_order_NoDup {V} site (m : gmap string V) :
  NoDup (range_order site m).*1.
Proof.
  rewrite (range_order_perm V site m). apply NoDup_fst_map_to_list.
Qed.

Lemma range_order_to_map {V} site (m : gmap string V) :
  list_to_map (range_order site m) = m.
Proof.
  rewrite <- (list_to_map_to_list m) at 2.
  apply list_to_map_proper; [apply range_order_NoDup | apply range_order_perm].
Qed.

Lemma split_label_run link l k v st :
  split_label link l k v st =
    Done (match tokens_kept v with Some r => <[k := r]> l | None => l end,
          {| templates := templates st;
             logs := logs st ++ label_warning (Link_String link) (k, v) |}).
Proof.
  unfold split_label, label_warning, tokens_kept, comma. cbn [fst snd].
  destruct (length (strings_Split v ",")) as [|[|[|n]]];
    cbn; rewrite ?app_nil_r; by destruct st.
Qed.

(** The loop over the labels, whatever the order: the kept splits lie over
    the entries that were there, the state changes by the warnings. *)
Lemma split_loop link es l0 st :
  NoDup es.*1 ->
  for_range (split_label link) l0 es st =
    Done (omap tokens_kept (list_to_map es) ∪ l0,
          {| templates := templates st;
             logs := logs st ++ (es ≫= label_warning (Link_String link)) |}).
Proof.
  revert l0 st. induction es as [|[k v] es IH]; intros l0 st Hnd.
  - cbn. rewrite omap_empty, (left_id_L ∅ (∪)), app_nil_r. by destruct st.
  - apply NoDup_cons in Hnd as [Hk Hnd]. cbn [fmap list_fmap fst] in Hk.
    cbn [for_range]. unfold mbind at 1. unfold M_bind at 1.
    rewrite split_label_run, (IH _ _ Hnd). cbn [templates logs].
    f_equal. f_equal.
    + apply map_eq. intros q.
      cbn [list_to_map foldr uncurry fst snd].
      rewrite !lookup_union, !lookup_omap.
      destruct (decide (q = k)) as [->|Hne].
      * rewrite lookup_insert_eq.
        rewrite (proj1 (not_elem_of_list_to_map (M:=gmap string) es k) Hk).
        cbn. destruct (tokens_kept v) as [r|];
          [rewrite lookup_insert_eq | ]; by destruct (l0 !! k).
      * rewrite lookup_insert_ne by done.
        destruct (tokens_kept v) as [r|];
          [rewrite lookup_insert_ne by done|]; done.
    + f_equal. cbn [mbind list_bind]. by rewrite app_assoc.
Qed.

Lemma sideA_entry_run cur k v :
  v <> [] -> sideA_entry cur k v = Done (apply_writes cur (writesA (k, v))).
Proof.
  intros Hv. unfold sideA_entry, writesA. cbn [fst snd].
  destruct v as [|x [|y v]]; [done| |]; cbn; case_decide; cbn in *; try lia; done.
Qed.

Lemma sideB_entry_run cur k v :
  v <> [] -> sideB_entry cur k v = Done (apply_writes cur (writesB (k, v))).
Proof.
  intros Hv. unfold sideB_entry, writesB. cbn [fst snd].
  destruct v as [|x [|y v]]; [done| |]; cbn; case_decide; cbn in *; try lia; done.
Qed.

Lemma apply_writes_app cur ws1 ws2 :
  apply_writes cur (ws1 ++ ws2) = apply_writes (apply_writes cur ws1) ws2.
Proof. apply foldl_app. Qed.

Lemma side_loop_A es cur :
  Forall (fun kv => kv.2 <> []) es ->
  for_range sideA_entry cur es = Done (apply_writes cur (es ≫= writesA)).
Proof.
  intros Hes. revert cur. induction Hes as [|[k v] es Hv _ IH]; intros cur; [done|].
  cbn [for_range]. rewrite (sideA_entry_run _ _ _ Hv).
  unfold mbind at 1. unfold Outcome_bind. rewrite IH.
  cbn [mbind list_bind]. by rewrite apply_writes_app.
Qed.

Lemma side_loop_B es cur :
  Forall (fun kv => kv.2 <> []) es ->
  for_range sideB_entry cur es = Done (apply_writes cur (es ≫= writesB)).
Proof.
  intros Hes. revert cur. induction Hes as [|[k v] es Hv _ IH]; intros cur; [done|].
  cbn [for_range]. rewrite (sideB_entry_run _ _ _ Hv).
  unfold mbind at 1. unfold Outcome_bind. rewrite IH.
  cbn [mbind list_bind]. by rewrite apply_writes_app.
Qed.

End LinkLoops.

(** *** The label map of a side, from the assignments that build it *)

Section Sides.

Variable writes : string * list string -> list (string * string).
Variables near far : list string -> option string.

Hypothesis writes_spec : forall k v q x,
  (q, x) ∈ writes (k, v) <->
  (q = k /\ near v = Some x) \/ (q = k +:+ "_far" /\ far v = Some x).
Hypothesis far_two : forall v x, far v = Some x -> 1 < length v.

Variable es : list (string * list string).
Variable l : pairMap.
Hypothesis es_elem : forall k v, (k, v) ∈ es <-> l !! k = Some v.

Lemma side_written q x :
  (q, x) ∈ es ≫= writes <->
  exists k v, l !! k = Some v /\
    ((q = k /\ near v = Some x) \/ (q = k +:+ "_far" /\ far v = Some x)).
Proof.
  rewrite list_elem_of_bind. split.
  - intros ([k v] & Hw & Hin). exists k, v.
    split; [by apply es_elem | by apply writes_spec].
  - intros (k & v & Hl & Hw). exists (k, v).
    split; [by apply writes_spec | by apply es_elem].
Qed.

(** The near value of an attribute is the own value of the side. *)
Lemma side_near cur k v x :
  l !! k = Some v -> near v = Some x -> far_free l k ->
  apply_writes cur (es ≫= writes) !! k = Some x.
Proof.
  intros Hl Hnear Hfree. apply apply_writes_agreed.
  - apply side_written. exists k, v. auto.
  - intros y (k' & v' & Hl' & [[-> Hy]|[-> Hy]])%side_written.
    + congruence.
    + exfalso. by apply (Hfree k' v' Hl' (far_two _ _ Hy)).
Qed.

(** The far value of an attribute is the value of the peer. *)
Lemma side_far cur k v y :
  l !! k = Some v -> far v = Some y -> l !! (k +:+ "_far") = None ->
  apply_writes cur (es ≫= writes) !! (k +:+ "_far") = Some y.
Proof.
  intros Hl Hfar Hnokey. apply apply_writes_agreed.
  - apply side_written. exists k, v. auto.
  - intros z (k' & v' & Hl' & [[Heq Hz]|[Heq Hz]])%side_written.
    + congruence.
    + apply string_app_inj_r in Heq as <-. congruence.
Qed.

(** A name that is no attribute and no far name is not set. *)
Lemma side_absent cur q :
  l !! q = None -> far_free l q ->
  apply_writes cur (es ≫= writes) !! q = cur !! q.
Proof.
  intros Hl Hfree. apply apply_writes_untouched.
  intros ([q' x] & -> & Hin)%list_elem_of_fmap. cbn [fst] in *.
  apply side_written in Hin as (k & v & Hk & [[-> Hx]|[-> Hx]]).
  - congruence.
  - by apply (Hfree k v Hk (far_two _ _ Hx)).
Qed.

End Sides.

Lemma writesA_spec k v q x :
  (q, x) ∈ writesA (k, v) <->
  (q = k /\ nearA v = Some x) \/ (q = k +:+ "_far" /\ farA v = Some x).
Proof.
  unfold writesA, nearA, farA. cbn [fst snd].
  destruct v as [|a [|b v]]; cbn.
  - rewrite elem_of_nil. naive_solver.
  - rewrite list_elem_of_singleton. naive_solver.
  - rewrite !elem_of_cons, elem_of_nil. naive_solver.
Qed.

Lemma writesB_spec k v q x :
  (q, x) ∈ writesB (k, v) <->
  (q = k /\ nearB v = Some x) \/ (q = k +:+ "_far" /\ farB v = Some x).
Proof.
  unfold writesB, nearB, farB. cbn [fst snd].
  destruct v as [|a [|b v]]; cbn.
  - rewrite elem_of_nil. naive_solver.
  - rewrite list_elem_of_singleton. naive_solver.
  - rewrite !elem_of_cons, elem_of_nil. naive_solver.
Qed.

Lemma farA_two v x : farA v = Some x -> 1 < length v.
Proof. unfold farA. destruct v as [|a [|b v]]; cbn; [done|done|lia]. Qed.

Lemma farB_two v x : farB v = Some x -> 1 < length v.
Proof. unfold farB. destruct v as [|a [|b v]]; cbn; [done|done|lia]. Qed.

(** *** The pair mapping and the two label maps of a link *)

Lemma tokens_kept_length v r :
  tokens_kept v = Some r ->
  r = strings_Split v ","%char /\ (length r = 1 \/ length r = 2).
Proof.
  unfold tokens_kept.
  destruct (length (strings_Split v ",")) as [|[|[|n]]] eqn:Hlen;
    intros [= <-]; auto.
Qed.

Lemma tokens_kept_none v :
  tokens_kept v = None <->
  length (strings_Split v ","%char) = 0 \/ 3 <= length (strings_Split v ","%char).
Proof.
  unfold tokens_kept.
  destruct (length (strings_Split v ",")) as [|[|[|n]]]; split; try done;
    try lia; intros [?|?]; lia.
Qed.

(** A label with one comma and nothing else to split at has two tokens. *)
Lemma tokens_kept_pair x y :
  contains_byte x ","%char = false -> contains_byte y ","%char = false ->
  tokens_kept (x +:+ String ","%char y) = Some [x; y].
Proof.
  intros Hx Hy. unfold tokens_kept.
  by rewrite (strings_Split_at_first _ _ _ Hx), (strings_Split_absent _ _ Hy).
Qed.

Lemma tokens_kept_single x :
  contains_byte x ","%char = false -> tokens_kept x = Some [x].
Proof. intros Hx. unfold tokens_kept. by rewrite (strings_Split_absent _ _ Hx). Qed.

Section LinkMaps.

Context {MO : MapOrder} {EX : Externals}.

Variable link : clab.Link.
Variables ipA ipB : IPNet.

Local Abbreviation split_result := (split_result link ipA ipB).
Local Abbreviation pairs_result := (pairs_result link ipA ipB).
Local Abbreviation pairs_state := (pairs_state link).
Local Abbreviation sideA_result := (sideA_result link ipA ipB).
Local Abbreviation sideB_result := (sideB_result link ipA ipB).

Lemma split_labels_run st :
  split_labels link ipA ipB st = Done (split_result, pairs_state st).
Proof.
  unfold split_labels. rewrite split_loop by apply range_order_NoDup.
  by rewrite range_order_to_map.
Qed.

Lemma link_pairs_run st :
  link_pairs link ipA ipB st = Done (pairs_result, pairs_state st).
Proof.
  unfold link_pairs, mbind, M_bind. by rewrite split_labels_run.
Qed.

Lemma split_result_lookup k :
  split_result !! k =
    match clab.LinkLabels link !! k ≫= tokens_kept with
    | Some r => Some r
    | None => computed_pairs link ipA ipB !! k
    end.
Proof.
  unfold split_result. rewrite lookup_union, lookup_omap.
  destruct (clab.LinkLabels link !! k ≫= tokens_kept);
    by destruct (computed_pairs link ipA ipB !! k).
Qed.

Lemma computed_pairs_lookup k v :
  computed_pairs link ipA ipB !! k = Some v ->
  (k = "ip" \/ k = "systemip") /\ length v = 2.
Proof.
  unfold computed_pairs. intros Hk.
  apply lookup_insert_Some in Hk as [[<- <-]|[_ Hk]]; [auto|].
  apply lookup_insert_Some in Hk as [[<- <-]|[_ Hk]]; [auto|].
  by rewrite lookup_empty in Hk.
Qed.

Lemma pairs_result_lookup k :
  k <> "name" -> pairs_result !! k = split_result !! k.
Proof.
  intros Hk. unfold pairs_result, default_names.
  destruct (split_result !! "name"); [done|]. by rewrite lookup_insert_ne.
Qed.

(** Every entry of the pair mapping has one or two values. *)
Lemma pairs_result_shape k v :
  pairs_result !! k = Some v ->
  (exists x, v = [x]) \/ (exists x y, v = [x; y]).
Proof.
  assert (forall w : list string, length w = 1 \/ length w = 2 ->
            (exists x, w = [x]) \/ (exists x y, w = [x; y])) as Hshape.
  { intros [|x [|y [|z w]]] [?|?]; simplify_eq/=; eauto. }
  assert (forall q w, split_result !! q = Some w ->
            length w = 1 \/ length w = 2) as Hsplit.
  { intros q w. rewrite split_result_lookup.
    destruct (clab.LinkLabels link !! q ≫= tokens_kept) as [r|] eqn:Hr.
    - intros [= <-]. destruct (clab.LinkLabels link !! q) as [u|]; [|done].
      cbn in Hr. by apply tokens_kept_length in Hr as [_ ?].
    - intros Hc. apply computed_pairs_lookup in Hc as [_ ?]. auto. }
  intros Hk. apply Hshape.
  unfold pairs_result, default_names in Hk.
  destruct (split_result !! "name") eqn:Hname; [by eapply Hsplit|].
  apply lookup_insert_Some in Hk as [[_ <-]|[_ Hk]]; [auto | by eapply Hsplit].
Qed.

Lemma pairs_result_nonempty site :
  Forall (fun kv : string * list string => kv.2 <> [])
         (range_order site pairs_result).
Proof.
  apply Forall_forall. intros [k v] Hin%range_order_elem. cbn [snd].
  apply pairs_result_shape in Hin as [[x ->]|(x & y & ->)]; done.
Qed.

Lemma side_labels_A : side_labels 0 pairs_result = Done sideA_result.
Proof.
  unfold side_labels. case_decide; [|done].
  apply side_loop_A, pairs_result_nonempty.
Qed.

Lemma side_labels_B : side_labels 1 pairs_result = Done sideB_result.
Proof.
  unfold side_labels. case_decide; [done|].
  apply side_loop_B, pairs_result_nonempty.
Qed.

Lemma sideA_near k v x :
  pairs_result !! k = Some v -> nearA v = Some x -> far_free pairs_result k ->
  sideA_result !! k = Some x.
Proof.
  apply (side_near writesA nearA farA writesA_spec farA_two).
  intros. apply range_order_elem.
Qed.

Lemma sideB_near k v x :
  pairs_result !! k = Some v -> nearB v = Some x -> far_free pairs_result k ->
  sideB_result !! k = Some x.
Proof.
  apply (side_near writesB nearB farB writesB_spec farB_two).
  intros. apply range_order_elem.
Qed.

Lemma sideA_far k v y :
  pairs_result !! k = Some v -> farA v = Some y ->
  pairs_result !! (k +:+ "_far") = None ->
  sideA_result !! (k +:+ "_far") = Some y.
Proof.
  apply (side_far writesA nearA farA writesA_spec).
  intros. apply range_order_elem.
Qed.

Lemma sideB_far k v y :
  pairs_result !! k = Some v -> farB v = Some y ->
  pairs_result !! (k +:+ "_far") = None ->
  sideB_result !! (k +:+ "_far") = Some y.
Proof.
  apply (side_far writesB nearB farB writesB_spec).
  intros. apply range_order_elem.
Qed.

Lemma sideA_absent q :
  pairs_result !! q = None -> far_free pairs_result q ->
  sideA_result !! q = None.
Proof.
  intros Hq Hfree. unfold sideA_result.
  rewrite (side_absent writesA nearA farA writesA_spec farA_two _ pairs_result);
    [done | intros; apply range_order_elem | done | done].
Qed.

Lemma sideB_absent q :
  pairs_result !! q = None -> far_free pairs_result q ->
  sideB_result !! q = None.
Proof.
  intros Hq Hfree. unfold sideB_result.
  rewrite (side_absent writesB nearB farB writesB_spec farB_two _ pairs_result);
    [done | intros; apply range_order_elem | done | done].
Qed.

(** The far name of an attribute with one value is nobody's far name. *)
Lemma far_free_single k x :
  pairs_result !! k = Some [x] -> far_free pairs_result (k +:+ "_far").
Proof.
  intros Hk k' v' Hk' Hlen Heq.
  apply string_app_inj_r in Heq as ->.
  rewrite Hk in Hk'. injection Hk' as <-. cbn in Hlen. lia.
Qed.

End LinkMaps.

(** *** [RenderLink] as a whole *)

Section LinkRun.

Context {MO : MapOrder} {EX : Externals}.

Variable link : clab.Link.
Variables ipA ipB : IPNet.
Hypothesis addresses : linkIPfromSystemIP link = inl (ipA, ipB).

Local Abbreviation pairs_result := (pairs_result link ipA ipB).
Local Abbreviation sideA_result := (sideA_result link ipA ipB).
Local Abbreviation sideB_result := (sideB_result link ipA ipB).
Local Abbreviation nodeA := (clab.EndpointNode (clab.A link)).
Local Abbreviation nodeB := (clab.EndpointNode (clab.B link)).

Lemma render_side_run l li st curL :
  side_labels li l = Done curL ->
  let curN := if decide (li = 0) then nodeA else nodeB in
  render_side link l li st =
    match RenderTemplate (kind_of curN) "base-link.tmpl" curL
            (with_log st (Debug_render_link (Link_String link)
                            (clab.LongName curN) (kind_of curN) curL)) with
    | Done (inl res, st') =>
        Done (inl {| TargetNode := Some curN;
                     templateName := templateName res;
                     source := Link_String link;
                     templateLabels := templateLabels res;
                     Config := Config res |}, st')
    | Done (inr err, st') =>
        Done (inr ("render " +:+ Link_String link +:+ " on "
                   +:+ clab.LongName curN +:+ " (" +:+ kind_of curN
                   +:+ "): " +:+ err), st')
    | Panics e => Panics e
    end.
Proof.
  intros Hside curN. unfold render_side. rewrite Hside.
  unfold mbind at 1. unfold M_bind at 1. cbn [lift].
  unfold mbind at 1. unfold M_bind at 1. cbn [logf].
  unfold mbind, M_bind. fold curN. unfold kind_of, with_log.
  destruct (RenderTemplate _ _ _ _) as [[[res|err] st']|]; done.
Qed.

(** The snippets that [RenderLink] returns carry the label maps of the
    two sides. *)
Lemma RenderLink_labels st sA sB st' :
  RenderLink link st = Done (inl (sA, sB), st') ->
  templateLabels sA = sideA_result /\ templateLabels sB = sideB_result /\
  TargetNode sA = Some nodeA /\ TargetNode sB = Some nodeB.
Proof.
  unfold RenderLink. rewrite addresses.
  unfold mbind at 1. unfold M_bind at 1. rewrite link_pairs_run.
  unfold mbind at 1. unfold M_bind at 1. cbn [logf].
  unfold mbind at 1. unfold M_bind at 1.
  rewrite (render_side_run _ 0 _ _ (side_labels_A link ipA ipB)).
  cbn zeta. case_decide; [|done].
  destruct (RenderTemplate _ _ sideA_result _) as [[[resA|errA] stA]|] eqn:HA;
    [|discriminate|discriminate].
  apply RenderTemplate_success in HA as (_ & _ & _ & _ & _ & _ & HlA).
  unfold mbind at 1. unfold M_bind at 1.
  rewrite (render_side_run _ 1 _ _ (side_labels_B link ipA ipB)).
  cbn zeta. case_decide; [done|].
  destruct (RenderTemplate _ _ sideB_result _) as [[[resB|errB] stB]|] eqn:HB;
    [|discriminate|discriminate].
  apply RenderTemplate_success in HB as (_ & _ & _ & _ & _ & _ & HlB).
  cbn. intros [= <- <- <-]. done.
Qed.

(** With template sets that execute on the two label maps, [RenderLink]
    returns the two snippets. *)
Lemma RenderLink_succeeds st tA tB outA outB :
  cached st (kind_of nodeA) = Some tA ->
  Execute tA "base-link.tmpl" sideA_result = Done (outA, None) ->
  cached st (kind_of nodeB) = Some tB ->
  Execute tB "base-link.tmpl" sideB_result = Done (outB, None) ->
  RenderLink link st =
    Done (inl ({| TargetNode := Some nodeA; templateName := "base-link.tmpl";
                  source := Link_String link;
                  templateLabels := sideA_result;
                  Config := Scanner_tokens outA |},
               {| TargetNode := Some nodeB; templateName := "base-link.tmpl";
                  source := Link_String link;
                  templateLabels := sideB_result;
                  Config := Scanner_tokens outB |}),
          sideB_state link ipA ipB st).
Proof.
  intros HtA HeA HtB HeB.
  unfold RenderLink. rewrite addresses.
  unfold mbind at 1. unfold M_bind at 1. rewrite link_pairs_run.
  unfold mbind at 1. unfold M_bind at 1. cbn [logf].
  unfold mbind at 1. unfold M_bind at 1.
  rewrite (render_side_run _ 0 _ _ (side_labels_A link ipA ipB)).
  cbn zeta. case_decide; [|done].
  rewrite (RenderTemplate_loaded _ _ _ _ tA outA) by done.
  unfold mbind at 1. unfold M_bind at 1.
  rewrite (render_side_run _ 1 _ _ (side_labels_B link ipA ipB)).
  cbn zeta. case_decide; [done|].
  rewrite (RenderTemplate_loaded _ _ _ _ tB outB) by done.
  done.
Qed.

End LinkRun.

(** *** What the two sides of a link receive *)

Lemma string_app_nil_r (s : string) : s +:+ "" = s.
Proof.
  induction s as [|c s IH]; [done|].
  change (String c (s +:+ "") = String c s). by rewrite IH.
Qed.

Lemma far_name_not_name (k : string) : k +:+ "_far" <> "name".
Proof.
  intros Heq. pose proof (f_equal String.length Heq) as Hlen.
  rewrite string_length_app in Hlen. cbn in Hlen.
  destruct k; [discriminate Heq | cbn in Hlen; lia].
Qed.

Section LinkClaims.

Context {MO : MapOrder} {EX : Externals}.

Variable link : clab.Link.
Variables ipA ipB : IPNet.

Local Abbreviation nodeA := (clab.EndpointNode (clab.A link)).
Local Abbreviation nodeB := (clab.EndpointNode (clab.B link)).

(** C1: every attribute of the pair mapping has one value or two.  Unless
    it is the far name of an attribute with two values, it reaches each side
    under its own name with the value of that side: with two values [x, y]
    side A has [x] and side B has [y]; with one value both sides have it.
    Unless its far name is itself an attribute, the far name holds the value
    of the peer exactly when there are two values: [y] on side A and [x] on
    side B, and with one value neither side has the far name.  The label
    maps are those of the returned snippets. *)
Theorem sides_near_and_far st :
  linkIPfromSystemIP link = inl (ipA, ipB) ->
  exists l st1 curA curB,
    link_pairs link ipA ipB st = Done (l, st1) /\
    side_labels 0 l = Done curA /\ side_labels 1 l = Done curB /\
    (forall sA sB st', RenderLink link st = Done (inl (sA, sB), st') ->
       templateLabels sA = curA /\ templateLabels sB = curB) /\
    forall k v, l !! k = Some v ->
      (exists x, v = [x] /\
         (far_free l k -> curA !! k = Some x /\ curB !! k = Some x) /\
         (l !! (k +:+ "_far") = None ->
          curA !! (k +:+ "_far") = None /\ curB !! (k +:+ "_far") = None)) \/
      (exists x y, v = [x; y] /\
         (far_free l k -> curA !! k = Some x /\ curB !! k = Some y) /\
         (l !! (k +:+ "_far") = None ->
          curA !! (k +:+ "_far") = Some y /\ curB !! (k +:+ "_far") = Some x)).
Proof.
  intros Hip.
  exists (pairs_result link ipA ipB), (pairs_state link st),
    (sideA_result link ipA ipB), (sideB_result link ipA ipB).
  split; [apply link_pairs_run|].
  split; [apply side_labels_A|]. split; [apply side_labels_B|].
  split.
  { intros sA sB st' Hr.
    by destruct (RenderLink_labels link ipA ipB Hip st sA sB st' Hr) as (? & ? & _). }
  intros k v Hk.
  destruct (pairs_result_shape _ _ _ _ _ Hk) as [[x ->]|(x & y & ->)].
  - left. exists x. split; [done|]. split.
    + intros Hfree. split; [by eapply sideA_near | by eapply sideB_near].
    + intros Hfar. pose proof (far_free_single _ _ _ _ _ Hk) as Hfree'.
      split; [by apply sideA_absent | by apply sideB_absent].
  - right. exists x, y. split; [done|]. split.
    + intros Hfree. split; [by eapply sideA_near | by eapply sideB_near].
    + intros Hfar. split; [by eapply sideA_far | by eapply sideB_far].
Qed.

(** C3: the comma split runs over every key of the link's labels.  The
    "ip" entry is the two addresses of the address assignment, and the
    "systemip" entry is the two nodes' system address labels, unless the
    link has a label of that name with one or two tokens, whose split then
    takes the place of the computed values. *)
Theorem pairs_ip_and_systemip st :
  linkIPfromSystemIP link = inl (ipA, ipB) ->
  exists l st1,
    link_pairs link ipA ipB st = Done (l, st1) /\
    l !! "ip" =
      Some (default [IPNet_String ipA; IPNet_String ipB]
              (clab.LinkLabels link !! "ip" ≫= tokens_kept)) /\
    l !! "systemip" =
      Some (default [get (clab.Labels nodeA) systemIP;
                     get (clab.Labels nodeB) systemIP]
              (clab.LinkLabels link !! "systemip" ≫= tokens_kept)) /\
    forall k v r, clab.LinkLabels link !! k = Some v ->
      tokens_kept v = Some r -> l !! k = Some r.
Proof.
  intros _.
  exists (pairs_result link ipA ipB), (pairs_state link st).
  split; [apply link_pairs_run|].
  split; [|split].
  - rewrite pairs_result_lookup by done. rewrite split_result_lookup.
    destruct (clab.LinkLabels link !! "ip" ≫= tokens_kept); [done|].
    unfold computed_pairs. by rewrite lookup_insert_ne, lookup_insert_eq.
  - rewrite pairs_result_lookup by done. rewrite split_result_lookup.
    destruct (clab.LinkLabels link !! "systemip" ≫= tokens_kept); [done|].
    unfold computed_pairs. by rewrite lookup_insert_eq.
  - intros k v r Hk Hr.
    assert (split_result link ipA ipB !! k = Some r) as Hs.
    { rewrite split_result_lookup, Hk. cbn. by rewrite Hr. }
    unfold pairs_result, default_names.
    destruct (split_result link ipA ipB !! "name") eqn:Hname; [done|].
    rewrite lookup_insert_ne; [done|]. intros <-. congruence.
Qed.

(** C5: a link label whose split has three tokens or more (a split never
    has none) puts no entry into the pair mapping and leaves a warning in
    the log, and nothing else of the state changes.  Its key is absent
    from the pair mapping and from the label maps of both sides unless it
    is "ip", "systemip" or "name", which hold computed values, or the far
    name of an attribute with two values.  The rendering goes on: with
    template sets that execute on the two label maps, [RenderLink] returns
    the snippets of both sides. *)
Theorem skipped_label st k v :
  linkIPfromSystemIP link = inl (ipA, ipB) ->
  clab.LinkLabels link !! k = Some v ->
  length (strings_Split v ","%char) = 0 \/
    3 <= length (strings_Split v ","%char) ->
  exists l st1 curA curB,
    link_pairs link ipA ipB st = Done (l, st1) /\
    side_labels 0 l = Done curA /\ side_labels 1 l = Done curB /\
    templates st1 = templates st /\
    logs st1 = logs st ++ (range_order site_labels (clab.LinkLabels link)
                             ≫= label_warning (Link_String link)) /\
    Warn_elements (Link_String link) k
      (length (strings_Split v ","%char)) v ∈ logs st1 /\
    (k <> "ip" -> k <> "systemip" -> k <> "name" ->
     l !! k = None /\
     (far_free l k -> curA !! k = None /\ curB !! k = None)) /\
    (forall tA tB outA outB,
       cached st (kind_of nodeA) = Some tA ->
       Execute tA "base-link.tmpl" curA = Done (outA, None) ->
       cached st (kind_of nodeB) = Some tB ->
       Execute tB "base-link.tmpl" curB = Done (outB, None) ->
       exists sA sB st',
         RenderLink link st = Done (inl (sA, sB), st') /\
         templateLabels sA = curA /\ templateLabels sB = curB).
Proof.
  intros Hip Hk Hlen. apply tokens_kept_none in Hlen.
  exists (pairs_result link ipA ipB), (pairs_state link st),
    (sideA_result link ipA ipB), (sideB_result link ipA ipB).
  split; [apply link_pairs_run|].
  split; [apply side_labels_A|]. split; [apply side_labels_B|].
  split; [done|]. split; [done|]. split; [|split].
  - cbn [pairs_state logs]. apply elem_of_app. right.
    apply list_elem_of_bind. exists (k, v). split.
    + unfold label_warning. cbn [fst snd]. rewrite Hlen.
      apply list_elem_of_singleton. done.
    + by apply range_order_elem.
  - intros Hnip Hnsys Hnname.
    assert (pairs_result link ipA ipB !! k = None) as Hnone.
    { rewrite pairs_result_lookup by done.
      rewrite split_result_lookup, Hk. cbn. rewrite Hlen.
      destruct (computed_pairs link ipA ipB !! k) as [w|] eqn:Hc; [|done].
      apply computed_pairs_lookup in Hc as [[?|?] _]; done. }
    split; [done|]. intros Hfree.
    split; [by apply sideA_absent | by apply sideB_absent].
  - intros tA tB outA outB HtA HeA HtB HeB.
    do 3 eexists. split; [by eapply RenderLink_succeeds | done].
Qed.

(** C6: when the loop over the labels leaves the pair mapping without a
    "name" entry, the sides get default names: side A is named "to_" and
    the short name of node B, side B "to_" and the short name of node A,
    each followed by an underscore and the link's [linkNr] label when that
    label is there and not empty, and by nothing otherwise. *)
Theorem default_names_of_sides st l0 st0 :
  linkIPfromSystemIP link = inl (ipA, ipB) ->
  split_labels link ipA ipB st = Done (l0, st0) ->
  l0 !! "name" = None ->
  exists l st1 curA curB,
    link_pairs link ipA ipB st = Done (l, st1) /\
    side_labels 0 l = Done curA /\ side_labels 1 l = Done curB /\
    (forall sA sB st', RenderLink link st = Done (inl (sA, sB), st') ->
       templateLabels sA = curA /\ templateLabels sB = curB) /\
    (forall nr, clab.LinkLabels link !! "linkNr" = Some nr -> nr <> "" ->
       curA !! "name" = Some ("to_" +:+ clab.ShortName nodeB +:+ "_" +:+ nr) /\
       curB !! "name" = Some ("to_" +:+ clab.ShortName nodeA +:+ "_" +:+ nr)) /\
    (clab.LinkLabels link !! "linkNr" = None \/
     clab.LinkLabels link !! "linkNr" = Some "" ->
       curA !! "name" = Some ("to_" +:+ clab.ShortName nodeB) /\
       curB !! "name" = Some ("to_" +:+ clab.ShortName nodeA)).
Proof.
  intros Hip Hsplit Hname.
  rewrite split_labels_run in Hsplit. injection Hsplit as <- <-.
  exists (pairs_result link ipA ipB), (pairs_state link st),
    (sideA_result link ipA ipB), (sideB_result link ipA ipB).
  split; [apply link_pairs_run|].
  split; [apply side_labels_A|]. split; [apply side_labels_B|].
  split.
  { intros sA sB st' Hr.
    by destruct (RenderLink_labels link ipA ipB Hip st sA sB st' Hr) as (? & ? & _). }
  assert (far_free (pairs_result link ipA ipB) "name") as Hfree.
  { intros k' v' _ _. apply far_name_not_name. }
  assert (forall suffix,
            (if decide (0 < String.length (get (clab.LinkLabels link) "linkNr"))
             then "_" +:+ get (clab.LinkLabels link) "linkNr"
             else get (clab.LinkLabels link) "linkNr") = suffix ->
            sideA_result link ipA ipB !! "name"
              = Some ("to_" +:+ clab.ShortName nodeB +:+ suffix) /\
            sideB_result link ipA ipB !! "name"
              = Some ("to_" +:+ clab.ShortName nodeA +:+ suffix)) as Hnames.
  { intros suffix Hsuffix.
    assert (pairs_result link ipA ipB !! "name"
            = Some ["to_" +:+ clab.ShortName nodeB +:+ suffix;
                    "to_" +:+ clab.ShortName nodeA +:+ suffix]) as Hl.
    { unfold pairs_result, default_names. rewrite Hname, Hsuffix.
      by rewrite lookup_insert_eq. }
    split; [by eapply sideA_near | by eapply sideB_near]. }
  split.
  - intros nr Hnr Hne. apply Hnames.
    unfold get. rewrite Hnr. cbn [default from_option id].
    destruct (decide (0 < String.length nr)) as [Hlen|Hlen]; [done|].
    destruct nr; [done | cbn in Hlen; lia].
  - intros Hnr.
    rewrite <- (string_app_nil_r ("to_" +:+ clab.ShortName nodeB)).
    rewrite <- (string_app_nil_r ("to_" +:+ clab.ShortName nodeA)).
    change (("to_" +:+ clab.ShortName nodeB) +:+ "")
      with ("to_" +:+ clab.ShortName nodeB +:+ "").
    change (("to_" +:+ clab.ShortName nodeA) +:+ "")
      with ("to_" +:+ clab.ShortName nodeA +:+ "").
    apply Hnames. unfold get.
    destruct Hnr as [-> | ->]; cbn [default from_option id];
      destruct (decide (0 < String.length "")) as [Hlen|Hlen];
      solve [done | cbn in Hlen; lia].
Qed.

(** C7: with no template set in the cache for a kind, be it that the kind
    was never loaded or that its load failed, [RenderTemplate] calls
    [ExecuteTemplate] on the nil entry: the call panics with a nil pointer
    dereference and returns no error, and so do [RenderNode] for a node
    of that kind and [RenderLink] for a link whose node A is of that
    kind. *)
Theorem render_of_unloaded_kind_panics st kind name labels node :
  cached st kind = None ->
  RenderTemplate kind name labels st = Panics NilPointerDereference /\
  (kind_of node = kind ->
   RenderNode node st = Panics NilPointerDereference) /\
  (linkIPfromSystemIP link = inl (ipA, ipB) -> kind_of nodeA = kind ->
   RenderLink link st = Panics NilPointerDereference).
Proof.
  intros Hnone. split; [by apply RenderTemplate_nil_template|]. split.
  - unfold kind_of. intros Hkind. unfold RenderNode. rewrite Hkind.
    unfold mbind at 1. unfold M_bind at 1. cbn [logf].
    unfold mbind, M_bind.
    rewrite RenderTemplate_nil_template; [done|].
    unfold cached in *. done.
  - intros Hip Hkind. unfold RenderLink. rewrite Hip.
    unfold mbind at 1. unfold M_bind at 1. rewrite link_pairs_run.
    unfold mbind at 1. unfold M_bind at 1. cbn [logf].
    unfold mbind at 1. unfold M_bind at 1.
    rewrite (render_side_run link _ 0 _ _ (side_labels_A link ipA ipB)).
    cbn zeta. case_decide; [|done]. rewrite Hkind.
    rewrite RenderTemplate_nil_template; [done|].
    unfold cached in *. done.
Qed.

End LinkClaims.

(** *** The theorems on the links between [r1] and [r2] *)

Lemma sides_near_and_far_witness :
  exists l st1 curA curB,
    link_pairs (MO:=Demo.order) (EX:=Demo.ext) Demo.link_ports
      Demo.addr_A Demo.addr_B Demo.loaded_state = Done (l, st1) /\
    side_labels (MO:=Demo.order) 0 l = Done curA /\
    side_labels (MO:=Demo.order) 1 l = Done curB /\
    (forall sA sB st',
       RenderLink (MO:=Demo.order) (EX:=Demo.ext) Demo.link_ports
         Demo.loaded_state = Done (inl (sA, sB), st') ->
       templateLabels sA = curA /\ templateLabels sB = curB) /\
    forall k v, l !! k = Some v ->
      (exists x, v = [x] /\
         (far_free l k -> curA !! k = Some x /\ curB !! k = Some x) /\
         (l !! (k +:+ "_far") = None ->
          curA !! (k +:+ "_far") = None /\ curB !! (k +:+ "_far") = None)) \/
      (exists x y, v = [x; y] /\
         (far_free l k -> curA !! k = Some x /\ curB !! k = Some y) /\
         (l !! (k +:+ "_far") = None ->
          curA !! (k +:+ "_far") = Some y /\ curB !! (k +:+ "_far") = Some x)).
Proof.
  apply (sides_near_and_far (MO:=Demo.order) (EX:=Demo.ext) Demo.link_ports
           Demo.addr_A Demo.addr_B Demo.loaded_state).
  reflexivity.
Defined.

(** The link has the labels [x] with one value and [x_far]: side A ends
    with the key [x_far] although [x] has no far value. *)
Lemma single_value_with_far_key :
  exists l st1 curA,
    link_pairs (MO:=Demo.order) (EX:=Demo.ext) Demo.link_far_label
      Demo.addr_A Demo.addr_B Demo.loaded_state = Done (l, st1) /\
    side_labels (MO:=Demo.order) 0 l = Done curA /\
    l !! "x" = Some ["a"] /\ curA !! "x_far" = Some "c".
Proof.
  exists (pairs_result (EX:=Demo.ext) Demo.link_far_label Demo.addr_A Demo.addr_B),
    (pairs_state (MO:=Demo.order) (EX:=Demo.ext) Demo.link_far_label Demo.loaded_state),
    (sideA_result (MO:=Demo.order) (EX:=Demo.ext) Demo.link_far_label
       Demo.addr_A Demo.addr_B).
  split; [apply link_pairs_run|]. split; [apply side_labels_A|].
  split; vm_compute; reflexivity.
Qed.

Lemma pairs_ip_and_systemip_witness :
  exists l st1,
    link_pairs (MO:=Demo.order) (EX:=Demo.ext) Demo.link_ip_label
      Demo.addr_A Demo.addr_B Demo.loaded_state = Done (l, st1) /\
    l !! "ip" =
      Some (default [Demo.addr_A; Demo.addr_B]
              (clab.LinkLabels Demo.link_ip_label !! "ip" ≫= tokens_kept)) /\
    l !! "systemip" =
      Some (default [get (clab.Labels Demo.r1) "systemip";
                     get (clab.Labels Demo.r2) "systemip"]
              (clab.LinkLabels Demo.link_ip_label !! "systemip" ≫= tokens_kept)) /\
    forall k v r, clab.LinkLabels Demo.link_ip_label !! k = Some v ->
      tokens_kept v = Some r -> l !! k = Some r.
Proof.
  apply (pairs_ip_and_systemip (MO:=Demo.order) (EX:=Demo.ext)
           Demo.link_ip_label Demo.addr_A Demo.addr_B Demo.loaded_state).
  reflexivity.
Defined.

(** The link has a label [ip]: its value takes the place of the two
    addresses that the address assignment returned. *)
Lemma ip_label_replaces_addresses :
  exists l st1,
    linkIPfromSystemIP (Externals:=Demo.ext) Demo.link_ip_label
      = inl (Demo.addr_A, Demo.addr_B) /\
    link_pairs (MO:=Demo.order) (EX:=Demo.ext) Demo.link_ip_label
      Demo.addr_A Demo.addr_B Demo.loaded_state = Done (l, st1) /\
    l !! "ip" = Some ["9.9.9.9"] /\
    l !! "ip" <> Some [Demo.addr_A; Demo.addr_B].
Proof.
  exists (pairs_result (EX:=Demo.ext) Demo.link_ip_label Demo.addr_A Demo.addr_B),
    (pairs_state (MO:=Demo.order) (EX:=Demo.ext) Demo.link_ip_label Demo.loaded_state).
  split; [reflexivity|]. split; [apply link_pairs_run|].
  assert (pairs_result (EX:=Demo.ext) Demo.link_ip_label Demo.addr_A Demo.addr_B
            !! "ip" = Some ["9.9.9.9"]) as Hip by (vm_compute; reflexivity).
  split; [exact Hip|]. rewrite Hip. discriminate.
Qed.

Lemma skipped_label_witness :
  exists l st1 curA curB,
    link_pairs (MO:=Demo.order) (EX:=Demo.ext) Demo.link_bad_label
      Demo.addr_A Demo.addr_B Demo.loaded_state = Done (l, st1) /\
    side_labels (MO:=Demo.order) 0 l = Done curA /\
    side_labels (MO:=Demo.order) 1 l = Done curB /\
    templates st1 = templates Demo.loaded_state /\
    logs st1 = logs Demo.loaded_state ++
               (range_order (MapOrder:=Demo.order) site_labels
                  (clab.LinkLabels Demo.link_bad_label)
                  ≫= label_warning "link") /\
    Warn_elements "link" "bad" (length (strings_Split "1,2,3" ","%char)) "1,2,3"
      ∈ logs st1 /\
    ("bad" <> "ip" -> "bad" <> "systemip" -> "bad" <> "name" ->
     l !! "bad" = None /\
     (far_free l "bad" -> curA !! "bad" = None /\ curB !! "bad" = None)) /\
    (forall tA tB outA outB,
       cached (EX:=Demo.ext) Demo.loaded_state (kind_of Demo.r1) = Some tA ->
       Execute (Externals:=Demo.ext) tA "base-link.tmpl" curA = Done (outA, None) ->
       cached (EX:=Demo.ext) Demo.loaded_state (kind_of Demo.r2) = Some tB ->
       Execute (Externals:=Demo.ext) tB "base-link.tmpl" curB = Done (outB, None) ->
       exists sA sB st',
         RenderLink (MO:=Demo.order) (EX:=Demo.ext) Demo.link_bad_label
           Demo.loaded_state = Done (inl (sA, sB), st') /\
         templateLabels sA = curA /\ templateLabels sB = curB).
Proof.
  apply (skipped_label (MO:=Demo.order) (EX:=Demo.ext) Demo.link_bad_label
           Demo.addr_A Demo.addr_B Demo.loaded_state "bad" "1,2,3").
  - reflexivity.
  - vm_compute. reflexivity.
  - right. vm_compute. lia.
Defined.

(** The link has a label [name] with three tokens: the label is skipped, and
    yet both sides have the key [name], set to the default names. *)
Lemma skipped_name_label_present :
  exists l st1 curA curB,
    clab.LinkLabels Demo.link_bad_name !! "name" = Some "a,b,c" /\
    length (strings_Split "a,b,c" ","%char) = 3 /\
    link_pairs (MO:=Demo.order) (EX:=Demo.ext) Demo.link_bad_name
      Demo.addr_A Demo.addr_B Demo.loaded_state = Done (l, st1) /\
    side_labels (MO:=Demo.order) 0 l = Done curA /\
    side_labels (MO:=Demo.order) 1 l = Done curB /\
    curA !! "name" = Some "to_r2" /\ curB !! "name" = Some "to_r1".
Proof.
  exists (pairs_result (EX:=Demo.ext) Demo.link_bad_name Demo.addr_A Demo.addr_B),
    (pairs_state (MO:=Demo.order) (EX:=Demo.ext) Demo.link_bad_name Demo.loaded_state),
    (sideA_result (MO:=Demo.order) (EX:=Demo.ext) Demo.link_bad_name
       Demo.addr_A Demo.addr_B),
    (sideB_result (MO:=Demo.order) (EX:=Demo.ext) Demo.link_bad_name
       Demo.addr_A Demo.addr_B).
  split; [vm_compute; reflexivity|]. split; [reflexivity|].
  split; [apply link_pairs_run|].
  split; [apply side_labels_A|]. split; [apply side_labels_B|].
  split; vm_compute; reflexivity.
Qed.

Lemma default_names_of_sides_witness :
  exists l st1 curA curB,
    link_pairs (MO:=Demo.order) (EX:=Demo.ext) Demo.link_numbered
      Demo.addr_A Demo.addr_B Demo.loaded_state = Done (l, st1) /\
    side_labels (MO:=Demo.order) 0 l = Done curA /\
    side_labels (MO:=Demo.order) 1 l = Done curB /\
    (forall sA sB st',
       RenderLink (MO:=Demo.order) (EX:=Demo.ext) Demo.link_numbered
         Demo.loaded_state = Done (inl (sA, sB), st') ->
       templateLabels sA = curA /\ templateLabels sB = curB) /\
    (forall nr, clab.LinkLabels Demo.link_numbered !! "linkNr" = Some nr ->
       nr <> "" ->
       curA !! "name" = Some ("to_" +:+ "r2" +:+ "_" +:+ nr) /\
       curB !! "name" = Some ("to_" +:+ "r1" +:+ "_" +:+ nr)) /\
    (clab.LinkLabels Demo.link_numbered !! "linkNr" = None \/
     clab.LinkLabels Demo.link_numbered !! "linkNr" = Some "" ->
       curA !! "name" = Some ("to_" +:+ "r2") /\
       curB !! "name" = Some ("to_" +:+ "r1")).
Proof.
  apply (default_names_of_sides (MO:=Demo.order) (EX:=Demo.ext)
           Demo.link_numbered Demo.addr_A Demo.addr_B Demo.loaded_state
           (split_result (EX:=Demo.ext) Demo.link_numbered Demo.addr_A Demo.addr_B)
           (pairs_state (MO:=Demo.order) (EX:=Demo.ext) Demo.link_numbered
              Demo.loaded_state)).
  - reflexivity.
  - apply split_labels_run.
  - vm_compute. reflexivity.
Defined.

Lemma render_of_unloaded_kind_panics_witness :
  RenderTemplate (EX:=Demo.ext) "srl" "base-node.tmpl" ∅ Demo.empty_state
    = Panics NilPointerDereference /\
  RenderNode (EX:=Demo.ext) Demo.r1 Demo.empty_state
    = Panics NilPointerDereference /\
  RenderLink (MO:=Demo.order) (EX:=Demo.ext) Demo.link_ports Demo.empty_state
    = Panics NilPointerDereference.
Proof.
  destruct (render_of_unloaded_kind_panics (MO:=Demo.order) (EX:=Demo.ext)
              Demo.link_ports Demo.addr_A Demo.addr_B Demo.empty_state
              "srl" "base-node.tmpl" ∅ Demo.r1 eq_refl) as (Ht & Hn & Hl).
  split; [exact Ht|].
  split; [apply Hn; reflexivity | apply Hl; reflexivity].
Defined.


(** * Further properties of the package *)

(** ** [ip] and [ipmask] *)

(** The first piece of a split has no separator and is the string itself
    or what stands before its first separator. *)
Lemma strings_Split_first s sep :
  exists p ts,
    strings_Split s sep = p :: ts /\ contains_byte p sep = false /\
    ((ts = [] /\ s = p) \/
     (exists rest, s = p +:+ String sep rest /\ ts = strings_Split rest sep)).
Proof.
  induction s as [|c s (p & ts & Hs & Hp & Hcases)]; cbn [strings_Split].
  - exists "", []. auto.
  - destruct (Ascii.eqb c sep) eqn:Hc.
    + apply Ascii.eqb_eq in Hc as ->. exists "", (strings_Split s sep).
      split; [done|]. split; [done|]. right. by exists s.
    + rewrite Hs. exists (String c p), ts. split; [done|].
      split; [by cbn; rewrite Hc|].
      destruct Hcases as [[-> ->]|(rest & -> & ->)]; [by left|].
      right. by exists rest.
Qed.

(** X1: [ip] never fails and never panics: for every value it returns the
    part of the string form before the first slash, which is the whole
    string form when there is no slash. *)
Theorem ip_part_before_slash (val : Value) :
  exists p,
    ip val = Done (VString p, None) /\
    contains_byte p slash = false /\
    (Sprintf_v val = p \/
     exists rest, Sprintf_v val = p +:+ String slash rest).
Proof.
  destruct (strings_Split_first (Sprintf_v val) slash)
    as (p & ts & Hs & Hp & Hcases).
  exists p. unfold ip. rewrite Hs. split; [done|]. split; [done|].
  destruct Hcases as [[_ ->]|(rest & -> & _)]; eauto.
Qed.

(** X2: for a value whose string form has a slash, [ip] returns what
    stands before the first slash and [ipmask] what stands between the
    first slash and the next one, or the end: a second slash and what
    follows it are dropped. *)
Theorem ip_and_ipmask_parts (val : Value) addr rest :
  contains_byte addr slash = false ->
  Sprintf_v val = addr +:+ String slash rest ->
  exists mask,
    ip val = Done (VString addr, None) /\
    ipmask val = Done (VString mask, None) /\
    contains_byte mask slash = false /\
    (rest = mask \/ exists more, rest = mask +:+ String slash more).
Proof.
  intros Haddr Hval.
  destruct (strings_Split_first rest slash) as (mask & ts & Hs & Hm & Hcases).
  exists mask. unfold ip, ipmask.
  rewrite Hval, (strings_Split_at_first _ _ _ Haddr), Hs.
  split; [done|]. split; [done|]. split; [done|].
  destruct Hcases as [[_ ->]|(more & -> & _)]; eauto.
Qed.

Lemma ip_and_ipmask_parts_witness :
  exists mask,
    ip (VString "10.0.0.1/31/x") = Done (VString "10.0.0.1", None) /\
    ipmask (VString "10.0.0.1/31/x") = Done (VString mask, None) /\
    contains_byte mask slash = false /\
    ("31/x" = mask \/ exists more, "31/x" = mask +:+ String slash more).
Proof.
  apply (ip_and_ipmask_parts (VString "10.0.0.1/31/x") "10.0.0.1" "31/x");
    reflexivity.
Defined.

(** ** [default] *)

(** X3: [default] fails for every value when the default itself is nil.
    With a default it never converts: it returns the default for a value
    that is nil, the empty string or false, without an error, and the value
    itself, unchanged, for every other value, with or without an error. *)
Theorem default_returns_value_or_default (val def : Value) :
  (def = VNil ->
   FuncMap.default val def = Done (VNil, Some "default value expected")) /\
  (def <> VNil ->
   exists err,
     FuncMap.default val def = Done (if is_unset val then def else val, err) /\
     (is_unset val = true -> err = None)).
Proof.
  split; [by intros ->|]. intros Hdef.
  destruct def as [|ds|dn|db|de dsp|dl|dl]; [done|..];
    destruct val as [|[|c s]|n|[|]|e sp|l|l]; cbn;
    try destruct (strconv_Atoi (String c s)); cbn;
    eexists; (split; [reflexivity|done]).
Qed.

Lemma default_returns_value_or_default_witness :
  exists err,
    FuncMap.default (VString "") (VString "eth0")
      = Done (if is_unset (VString "") then VString "eth0" else VString "", err) /\
    (is_unset (VString "") = true -> err = None).
Proof.
  apply (proj2 (default_returns_value_or_default (VString "") (VString "eth0"))).
  discriminate.
Defined.

(** X4: for a value that is set and a default that is not nil, [default]
    returns an error exactly when the types do not reconcile: a string
    default wants a string, an integer default wants an integer or a string
    that [strconv.Atoi] reads, and a default of any other type only rejects
    strings and integers. *)
Theorem default_type_check (val def : Value) :
  def <> VNil -> is_unset val = false ->
  ((exists msg, FuncMap.default val def = Done (val, Some msg)) <->
   reconciles val def = false) /\
  (FuncMap.default val def = Done (val, None) <-> reconciles val def = true).
Proof.
  intros Hdef Hset.
  destruct def as [|ds|dn|db|de dsp|dl|dl]; [done|..];
    destruct val as [|[|c s]|n|[|]|e sp|l|l]; try discriminate Hset; cbn;
    try destruct (strconv_Atoi (String c s)); cbn;
    (split; split; try done; try (intros (msg & Hmsg); discriminate);
     try (intros _; eexists; reflexivity)).
Qed.

Lemma default_type_check_witness :
  ((exists msg, FuncMap.default (VString "abc") (VInt 5)
                  = Done (VString "abc", Some msg)) <->
   reconciles (VString "abc") (VInt 5) = false) /\
  (FuncMap.default (VString "abc") (VInt 5) = Done (VString "abc", None) <->
   reconciles (VString "abc") (VInt 5) = true).
Proof.
  apply (default_type_check (VString "abc") (VInt 5)); [discriminate | reflexivity].
Defined.

(** ** [contains], [split] and [join] *)

Lemma string_app_cons c (s t : string) : String c s +:+ t = String c (s +:+ t).
Proof. reflexivity. Qed.

Lemma string_app_nil_l (s : string) : "" +:+ s = s.
Proof. reflexivity. Qed.

Lemma take_drop_bytes n s : take_bytes n s +:+ drop_bytes n s = s.
Proof.
  revert s. induction n as [|n IH]; intros [|c s]; cbn [take_bytes drop_bytes];
    try reflexivity.
  by rewrite string_app_cons, IH.
Qed.

Lemma drop_bytes_length n s :
  String.length (drop_bytes n s) = String.length s - n.
Proof.
  revert s. induction n as [|n IH]; intros [|c s]; cbn [drop_bytes]; cbn;
    auto; lia.
Qed.

Lemma has_prefix_drop p s :
  has_prefix p s = true -> s = p +:+ drop_bytes (String.length p) s.
Proof.
  revert s. induction p as [|a p IH]; intros [|b s]; cbn; try done.
  intros [Hab Hp]%andb_true_iff. apply Ascii.eqb_eq in Hab as ->.
  by rewrite string_app_cons, <- (IH _ Hp).
Qed.

Lemma has_prefix_app p s : has_prefix p (p +:+ s) = true.
Proof.
  induction p as [|a p IH]; [done|].
  rewrite string_app_cons. cbn. by rewrite Ascii.eqb_refl, IH.
Qed.

Section SplitSep.

Variable sep : string.

Lemma split_sep_nonempty k s : split_sep sep k s <> [].
Proof.
  revert k. induction s as [|c s IH]; intros k; cbn [split_sep]; [done|].
  destruct k; [|apply IH].
  destruct (has_prefix sep (String c s)); [done|].
  by destruct (split_sep sep 0 s).
Qed.

(** The bytes of a separator that was found are passed over. *)
Lemma split_sep_skip k s :
  split_sep sep k s = split_sep sep 0 (drop_bytes k s).
Proof.
  revert k. induction s as [|c s IH]; intros [|k]; try reflexivity.
  cbn [split_sep drop_bytes]. apply IH.
Qed.

Lemma concat_cons_nonempty (x : string) (l : list string) :
  l <> [] -> String.concat sep (x :: l) = x +:+ sep +:+ String.concat sep l.
Proof. by destruct l. Qed.

Lemma concat_cons_head c (x : string) (l : list string) :
  String.concat sep (String c x :: l) = String c (String.concat sep (x :: l)).
Proof. by destruct l. Qed.

Hypothesis sep_nonempty : sep <> "".

(** Joining the pieces with the separator gives the string back. *)
Lemma split_sep_concat s : String.concat sep (split_sep sep 0 s) = s.
Proof.
  remember (String.length s) as n eqn:Hn. revert s Hn.
  induction (lt_wf n) as [n _ IH]. intros [|c s] ->; [done|].
  cbn [split_sep]. destruct (has_prefix sep (String c s)) eqn:Hp.
  - rewrite split_sep_skip.
    rewrite concat_cons_nonempty by apply split_sep_nonempty.
    assert (drop_bytes (String.length sep - 1) s
            = drop_bytes (String.length sep) (String c s)) as Hdrop.
    { destruct sep as [|a p]; [done|]. cbn. by rewrite Nat.sub_0_r. }
    rewrite Hdrop.
    rewrite (IH (String.length (drop_bytes (String.length sep) (String c s))));
      [|rewrite drop_bytes_length|reflexivity].
    + rewrite string_app_nil_l. symmetry. by apply has_prefix_drop.
    + destruct sep; [done|]. cbn. lia.
  - pose proof (IH (String.length s) ltac:(cbn; lia) s eq_refl) as IHs.
    destruct (split_sep sep 0 s) as [|t ts] eqn:Hs.
    { by destruct (split_sep_nonempty 0 s). }
    by rewrite concat_cons_head, IHs.
Qed.



End SplitSep.

(** For a separator of one byte the split is the one that [RenderLink] and
    [ip] use. *)
Lemma split_sep_one_byte c s :
  split_sep (String c "") 0 s = strings_Split s c.
Proof.
  induction s as [|a s IH]; [done|].
  cbn [split_sep strings_Split has_prefix String.length]. cbn [Nat.sub].
  rewrite andb_true_r, Ascii.eqb_sym, IH.
  by destruct (Ascii.eqb a c).
Qed.

Lemma rune_len_bounds s :
  s <> "" -> 1 <= rune_len s <= String.length s.
Proof.
  destruct s as [|c0 rest]; [done|]. intros _. unfold rune_len.
  repeat match goal with
         | |- context [if ?b then _ else _] => destruct b eqn:?
         | |- context [match ?r with EmptyString => _ | String _ _ => _ end] =>
             destruct r
         end;
    repeat match goal with
           | H : Nat.ltb _ _ = false |- _ => apply Nat.ltb_ge in H
           end;
    cbn [String.length] in *; lia.
Qed.

Lemma explode_from_concat fuel s :
  String.length s <= fuel -> String.concat "" (explode_from fuel s) = s.
Proof.
  revert s. induction fuel as [|fuel IH]; intros s Hlen.
  - destruct s; [done | cbn in Hlen; lia].
  - destruct s as [|c s]; [done|].
    cbn [explode_from].
    pose proof (rune_len_bounds (String c s) ltac:(done)) as [Hlo Hhi].
    set (w := rune_len (String c s)) in *.
    assert (String.length (drop_bytes w (String c s)) <= fuel) as Hrest.
    { rewrite drop_bytes_length. cbn [String.length] in *. lia. }
    specialize (IH _ Hrest).
    destruct (explode_from fuel (drop_bytes w (String c s))) as [|x xs] eqn:Hx.
    + cbn [String.concat] in *. rewrite <- (take_drop_bytes w (String c s)) at 2.
      by rewrite <- IH, string_app_nil_r.
    + rewrite concat_cons_nonempty by done. rewrite string_app_nil_l, IH.
      apply take_drop_bytes.
Qed.

Lemma explode_empty s : explode s = [] <-> s = "".
Proof.
  unfold explode. destruct s as [|c s]; [done|].
  cbn [String.length explode_from]. done.
Qed.

(** Joining the pieces of any split with its separator gives the string
    back. *)
Lemma strings_Split_sep_Join s sep :
  strings_Join (strings_Split_sep s sep) sep = s.
Proof.
  unfold strings_Join, strings_Split_sep. destruct sep as [|a sep].
  - by apply explode_from_concat.
  - by apply split_sep_concat.
Qed.

Lemma strings_Split_sep_empty s sep :
  strings_Split_sep s sep = [] <-> s = "" /\ sep = "".
Proof.
  unfold strings_Split_sep. destruct sep as [|a sep].
  - rewrite explode_empty. naive_solver.
  - split; [|naive_solver]. intros H. by destruct (split_sep_nonempty _ _ _ H).
Qed.

Lemma map_Sprintf_v_VString (pieces : list string) :
  List.map Sprintf_v (List.map VString pieces) = pieces.
Proof. induction pieces as [|p ps IH]; [done|]. cbn. by rewrite IH. Qed.

Lemma split_of_value (val sep : Value) :
  val <> VNil ->
  FuncMap.split val sep =
    Done (VSlice (List.map VString
                    (strings_Split_sep (Sprintf_v val) (separator_of sep))) [],
          None).
Proof. intros Hval. unfold FuncMap.split, separator_of. by destruct val, sep. Qed.

Lemma split_is_sequence (val sep : Value) :
  exists pieces,
    FuncMap.split val sep = Done (VSlice (List.map VString pieces) [], None).
Proof.
  assert (val = VNil \/ val <> VNil) as [->|Hval]
    by (destruct val; auto; right; discriminate).
  - by exists [].
  - eexists. by apply split_of_value.
Qed.

(** X5: [split] never fails and never panics.  It returns a sequence of
    strings without spare capacity, and the sequence is empty exactly when
    the value is nil or when the string forms of the value and of the
    separator are both empty; a missing separator counts as one space. *)
Theorem split_returns_pieces (val sep : Value) :
  exists pieces,
    FuncMap.split val sep = Done (VSlice (List.map VString pieces) [], None) /\
    (pieces = [] <->
     val = VNil \/ (Sprintf_v val = "" /\ separator_of sep = "")).
Proof.
  assert (val = VNil \/ val <> VNil) as [->|Hval]
    by (destruct val; auto; right; discriminate).
  { exists []. split; [done|]. naive_solver. }
  exists (strings_Split_sep (Sprintf_v val) (separator_of sep)).
  split.
  - by apply split_of_value.
  - rewrite strings_Split_sep_empty. naive_solver.
Qed.

(** X6: for a value that is not nil and a separator that is a string or
    missing, [join] undoes [split]: joining the pieces with the same
    separator gives the string form of the value back. *)
Theorem join_of_split (val sep : Value) :
  val <> VNil ->
  sep = VNil \/ (exists x, sep = VString x) ->
  exists r,
    FuncMap.split val sep = Done (r, None) /\
    FuncMap.join r sep = Done (VString (Sprintf_v val), None).
Proof.
  intros Hval Hsep.
  exists (VSlice (List.map VString
                    (strings_Split_sep (Sprintf_v val) (separator_of sep))) []).
  split.
  - unfold FuncMap.split, separator_of. by destruct val, sep.
  - unfold FuncMap.join. rewrite map_Sprintf_v_VString.
    assert (match sep with VNil => " " | _ => FuncMap.Sprintf_s sep end
            = separator_of sep) as ->.
    { by destruct Hsep as [->|[x ->]]. }
    by rewrite strings_Split_sep_Join.
Qed.

Lemma join_of_split_witness :
  exists r,
    FuncMap.split (VString "a, b,, c") (VString ", ") = Done (r, None) /\
    FuncMap.join r (VString ", ")
      = Done (VString (Sprintf_v (VString "a, b,, c")), None).
Proof.
  apply (join_of_split (VString "a, b,, c") (VString ", ")).
  - discriminate.
  - right. by exists ", ".
Defined.



(** X8: [join] never panics; it returns an error exactly when the value is
    no sequence (not a generic sequence, a string sequence or an integer
    sequence), and a string otherwise. *)
Theorem join_errors (val sep : Value) :
  ((exists x err, FuncMap.join val sep = Done (x, Some err)) <->
   is_sequence val = false) /\
  (is_sequence val = true ->
   exists s, FuncMap.join val sep = Done (VString s, None)).
Proof.
  unfold FuncMap.join.
  destruct val; cbn; (split; [split|]); try done;
    try (intros (x & err & Heq); discriminate); eauto.
Qed.

(** A slice expression on a generic sequence with indices that are not
    negative. *)
Lemma slice_of_sequence elems spare (s e : Z) :
  (0 <= s <= e)%Z ->
  slice (VSlice elems spare) (VInt s) (VInt e) =
    if (e <=? Z.of_nat (length (elems ++ spare)))%Z
    then Done (VSlice (take (Z.to_nat (e - s))
                         (drop (Z.to_nat s) (elems ++ spare)))
                      (drop (Z.to_nat e) (elems ++ spare)), None)
    else Panics (SliceBoundsOutOfRange s e (length (elems ++ spare))).
Proof.
  intros Hse. cbn [slice]. rewrite !from_end_nonnegative by lia.
  unfold slice_slice.
  destruct (Z.leb_spec 0 s), (Z.leb_spec s e); try lia. cbn [andb].
  by destruct (e <=? Z.of_nat (length (elems ++ spare)))%Z.
Qed.

(** X9: slicing what [split] returned is bounded by the number of pieces:
    the result has no spare capacity, so for [0 <= s <= e] the slice
    returns when [e] is at most the number of pieces and panics beyond. *)
Theorem slice_of_split (val sep r : Value) (s e : Z) :
  FuncMap.split val sep = Done (r, None) ->
  (0 <= s <= e)%Z ->
  ((e <= len_of r)%Z ->
   exists r', slice r (VInt s) (VInt e) = Done (r', None)) /\
  ((len_of r < e)%Z ->
   exists p, slice r (VInt s) (VInt e) = Panics p).
Proof.
  intros Hsplit Hse.
  destruct (split_is_sequence val sep) as (pieces & Hr).
  rewrite Hr in Hsplit. injection Hsplit as <-.
  rewrite (slice_of_sequence _ _ _ _ Hse). cbn [len_of].
  rewrite app_nil_r.
  destruct (Z.leb_spec e (Z.of_nat (length (List.map VString pieces))));
    split; intros; try lia; eauto.
Qed.

Lemma slice_of_split_witness :
  ((2 <= len_of (VSlice [VString "a"; VString "b"] []))%Z ->
   exists r', slice (VSlice [VString "a"; VString "b"] []) (VInt 0) (VInt 2)
              = Done (r', None)) /\
  ((len_of (VSlice [VString "a"; VString "b"] []) < 2)%Z ->
   exists p, slice (VSlice [VString "a"; VString "b"] []) (VInt 0) (VInt 2)
             = Panics p).
Proof.
  apply (slice_of_split (VString "a b") VNil
           (VSlice [VString "a"; VString "b"] []) 0 2).
  - reflexivity.
  - lia.
Defined.

(** ** [slice] once more *)

Lemma substring_take_drop n m s :
  String.substring n m s = take_bytes m (drop_bytes n s).
Proof.
  revert n m. induction s as [|c s IH]; intros [|n] [|m]; try reflexivity.
  - cbn [String.substring drop_bytes take_bytes]. by rewrite (IH 0 m).
  - cbn [String.substring drop_bytes]. apply IH.
  - cbn [String.substring drop_bytes]. apply IH.
Qed.

Lemma take_bytes_all n s : String.length s <= n -> take_bytes n s = s.
Proof.
  revert s. induction n as [|n IH]; intros [|c s] Hlen; cbn in *;
    try reflexivity; try lia.
  rewrite IH; [done | lia].
Qed.

(** X10: a slice of a generic sequence keeps the rest of the sequence as
    spare capacity, and a later [slice] of the result may reach into it:
    after cutting a sequence down to its first [k] elements, slicing the
    result up to the old length gives the whole sequence back. *)
Theorem slice_reaches_into_capacity (elems spare : list Value) (k : nat) :
  k <= length elems ->
  exists r,
    slice (VSlice elems spare) (VInt 0) (VInt (Z.of_nat k)) = Done (r, None) /\
    len_of r = Z.of_nat k /\
    Sprintf_v r = Sprintf_v (VSlice (take k elems) []) /\
    slice r (VInt 0) (VInt (Z.of_nat (length elems)))
      = Done (VSlice elems spare, None).
Proof.
  intros Hk.
  exists (VSlice (take k (elems ++ spare)) (drop k (elems ++ spare))).
  assert (take k (elems ++ spare) = take k elems) as Htake
    by (by rewrite take_app_le).
  split; [|split; [|split]].
  - rewrite slice_of_sequence by lia.
    destruct (Z.leb_spec (Z.of_nat k) (Z.of_nat (length (elems ++ spare))))
      as [_|Hgt]; [|rewrite length_app in Hgt; lia].
    by rewrite Z.sub_0_r, !Nat2Z.id, drop_0.
  - cbn [len_of]. rewrite Htake, length_take. lia.
  - by rewrite Htake.
  - rewrite slice_of_sequence by lia. rewrite take_drop.
    destruct (Z.leb_spec (Z.of_nat (length elems))
                (Z.of_nat (length (elems ++ spare))))
      as [_|Hgt]; [|rewrite length_app in Hgt; lia].
    rewrite Z.sub_0_r, !Nat2Z.id, drop_0.
    by rewrite take_app_length, drop_app_length.
Qed.

Lemma slice_reaches_into_capacity_witness :
  exists r,
    slice (VSlice [VString "a"; VString "b"; VString "c"] []) (VInt 0)
      (VInt (Z.of_nat 1)) = Done (r, None) /\
    len_of r = Z.of_nat 1 /\
    Sprintf_v r
      = Sprintf_v (VSlice (take 1 [VString "a"; VString "b"; VString "c"]) []) /\
    slice r (VInt 0)
      (VInt (Z.of_nat (length [VString "a"; VString "b"; VString "c"])))
      = Done (VSlice [VString "a"; VString "b"; VString "c"] [], None).
Proof.
  apply (slice_reaches_into_capacity
           [VString "a"; VString "b"; VString "c"] [] 1).
  cbn. lia.
Defined.

(** X11: negative indices count from the end of a string: for
    [0 < k <= len(v)], [slice(v, 0, -k)] is the string without its last [k]
    bytes and [slice(v, -k, len(v))] is its last [k] bytes, so the two put
    together are the string. *)
Theorem slice_string_from_end (v : string) (k : nat) :
  0 < k <= String.length v ->
  (len_string v <= int_max)%Z ->
  exists a b,
    slice (VString v) (VInt 0) (VInt (- Z.of_nat k)) = Done (VString a, None) /\
    slice (VString v) (VInt (- Z.of_nat k)) (VInt (len_string v))
      = Done (VString b, None) /\
    a +:+ b = v /\ String.length b = k.
Proof.
  intros Hk Hmax.
  pose (n := String.length v - k).
  assert (n = String.length v - k) as Hn by reflexivity. clearbody n.
  exists (take_bytes n v), (drop_bytes n v).
  assert (in_int (- Z.of_nat k)) as Hin.
  { unfold in_int, int_min, int_max, len_string in *. lia. }
  assert (from_end (- Z.of_nat k) (len_string v) = Z.of_nat n) as Hfrom.
  { rewrite from_end_negative;
      [unfold len_string; lia | done | lia | unfold len_string in *; lia]. }
  split; [|split; [|split]].
  - cbn [slice]. rewrite Hfrom, from_end_nonnegative by lia.
    unfold slice_string, len_string.
    destruct (Z.leb_spec 0 (Z.of_nat n)); [|lia].
    destruct (Z.leb_spec (Z.of_nat n) (Z.of_nat (String.length v))); [|lia].
    cbn [andb Z.leb]. rewrite substring_take_drop.
    by rewrite Z.sub_0_r, Nat2Z.id.
  - cbn [slice]. rewrite Hfrom.
    rewrite from_end_nonnegative by (unfold len_string; lia).
    unfold slice_string, len_string.
    destruct (Z.leb_spec 0 (Z.of_nat n)); [|lia].
    destruct (Z.leb_spec (Z.of_nat n) (Z.of_nat (String.length v))); [|lia].
    rewrite Z.leb_refl. cbn [andb]. rewrite substring_take_drop, Nat2Z.id.
    rewrite take_bytes_all; [done|]. rewrite drop_bytes_length. lia.
  - apply take_drop_bytes.
  - rewrite drop_bytes_length. lia.
Qed.

Lemma slice_string_from_end_witness :
  exists a b,
    slice (VString "abcdef") (VInt 0) (VInt (- Z.of_nat 2))
      = Done (VString a, None) /\
    slice (VString "abcdef") (VInt (- Z.of_nat 2)) (VInt (len_string "abcdef"))
      = Done (VString b, None) /\
    a +:+ b = "abcdef" /\ String.length b = 2.
Proof.
  apply (slice_string_from_end "abcdef" 2).
  - cbn. lia.
  - vm_compute. discriminate.
Defined.

(** ** The renderers once more *)

Section RenderMore.

Context {MO : MapOrder} {EX : Externals}.

Lemma RenderTemplate_error st kind name labels t out err :
  cached st kind = Some t ->
  Execute t name labels = Done (out, Some err) ->
  RenderTemplate kind name labels st =
    Done (inr err, with_log (with_log st (Error_could_not_render err))
                     (Debug_labels_json labels)).
Proof.
  unfold cached, RenderTemplate, lookup_template. intros Ht Hexec.
  unfold mbind, M_bind, lift. rewrite Ht. cbn. rewrite Hexec. done.
Qed.

(** What [RenderNode] returns, from what [RenderTemplate] returns in the
    state with the debug entry. *)
Lemma RenderNode_run node st :
  RenderNode node st =
    match RenderTemplate (kind_of node) "base-node.tmpl" (clab.Labels node)
            (with_log st (Debug_render_node (clab.LongName node) (kind_of node)))
    with
    | Done (inl res, st') =>
        Done (inl {| TargetNode := Some node; templateName := templateName res;
                     source := "node"; templateLabels := templateLabels res;
                     Config := Config res |}, st')
    | Done (inr err, st') =>
        Done (inr ("render node " +:+ clab.LongName node +:+ " ["
                   +:+ kind_of node +:+ "]: " +:+ err), st')
    | Panics e => Panics e
    end.
Proof.
  unfold RenderNode, kind_of, with_log.
  unfold mbind at 1. unfold M_bind at 1. cbn [logf].
  unfold mbind, M_bind.
  destruct (RenderTemplate _ _ _ _) as [[[res|err] st']|]; done.
Qed.

(** X12: a snippet as [RenderTemplate] returns it has no target node yet,
    so [String] on it dereferences nil and panics. *)
Theorem String_of_template_snippet kind name labels st res st' :
  RenderTemplate kind name labels st = Done (inl res, st') ->
  ConfigSnippet_String res = Panics NilPointerDereference.
Proof.
  intros Hr.
  unfold RenderTemplate, lookup_template, mbind, M_bind, lift in Hr.
  destruct (ExecuteTemplate _ _ _) as [[out [err|]]|]; cbn in Hr;
    [discriminate| |discriminate].
  by injection Hr as <- <-.
Qed.

(** X13: the snippets that [RenderNode] returns describe themselves
    without a panic: [String] gives the node's long name, the source "node"
    and the number of lines. *)
Theorem String_of_node_snippet node st res st' :
  RenderNode node st = Done (inl res, st') ->
  ConfigSnippet_String res =
    Done (clab.LongName node +:+ ": node "
          +:+ pretty (Z.of_nat (length (Config res)))
          +:+ " lines of config").
Proof.
  rewrite RenderNode_run.
  destruct (RenderTemplate _ _ _ _) as [[[r|err] st1]|];
    [|discriminate|discriminate].
  by intros [= <- <-].
Qed.

(** X14: [RenderNode] on a node whose kind is loaded.  When the template
    executes, the snippet has the node as target, the source "node", the
    template name "base-node.tmpl", the node's own labels and the scanned
    output, and one debug entry is logged.  When the template fails, the
    error comes back behind the node's long name and kind, no snippet is
    returned, and the error and the labels are logged. *)
Theorem RenderNode_result node st t out :
  cached st (kind_of node) = Some t ->
  (Execute t "base-node.tmpl" (clab.Labels node) = Done (out, None) ->
   RenderNode node st =
     Done (inl {| TargetNode := Some node; templateName := "base-node.tmpl";
                  source := "node"; templateLabels := clab.Labels node;
                  Config := Scanner_tokens out |},
           with_log st (Debug_render_node (clab.LongName node) (kind_of node)))) /\
  (forall err,
     Execute t "base-node.tmpl" (clab.Labels node) = Done (out, Some err) ->
     RenderNode node st =
       Done (inr ("render node " +:+ clab.LongName node +:+ " ["
                  +:+ kind_of node +:+ "]: " +:+ err),
             with_log (with_log (with_log st
                         (Debug_render_node (clab.LongName node) (kind_of node)))
                         (Error_could_not_render err))
               (Debug_labels_json (clab.Labels node)))).
Proof.
  intros Ht. split.
  - intros Hexec. rewrite RenderNode_run.
    by rewrite (RenderTemplate_loaded _ _ _ _ t out) by done.
  - intros err Hexec. rewrite RenderNode_run.
    by rewrite (RenderTemplate_error _ _ _ _ t out err) by done.
Qed.

End RenderMore.

Lemma RenderNode_result_witness :
  RenderNode (EX:=Demo2.ext) Demo2.r3 Demo2.state =
    Done (inr ("render node " +:+ clab.LongName Demo2.r3 +:+ " ["
               +:+ kind_of Demo2.r3 +:+ "]: " +:+ "boom"),
          with_log (with_log (with_log Demo2.state
                      (Debug_render_node (clab.LongName Demo2.r3)
                         (kind_of Demo2.r3)))
                      (Error_could_not_render "boom"))
            (Debug_labels_json (clab.Labels Demo2.r3))).
Proof.
  apply (proj2 (RenderNode_result (EX:=Demo2.ext) Demo2.r3 Demo2.state
                  Demo2.bad "" ltac:(vm_compute; reflexivity)) "boom").
  reflexivity.
Defined.

Lemma String_of_template_snippet_witness :
  ConfigSnippet_String
    {| TargetNode := None; templateName := "base-node.tmpl"; source := "";
       templateLabels := ∅; Config := Scanner_tokens "hostname r1" |}
    = Panics NilPointerDereference.
Proof.
  apply (String_of_template_snippet (EX:=Demo.ext) "srl" "base-node.tmpl" ∅
           Demo.loaded_state _ Demo.loaded_state).
  apply (RenderTemplate_loaded (EX:=Demo.ext) Demo.loaded_state "srl"
           "base-node.tmpl" ∅ "hostname r1" "hostname r1");
    vm_compute; reflexivity.
Defined.

Lemma String_of_node_snippet_witness :
  ConfigSnippet_String
    {| TargetNode := Some Demo.r1; templateName := "base-node.tmpl";
       source := "node"; templateLabels := clab.Labels Demo.r1;
       Config := Scanner_tokens "hostname r1" |}
    = Done ("lab-r1" +:+ ": node "
            +:+ pretty (Z.of_nat (length (Scanner_tokens "hostname r1")))
            +:+ " lines of config").
Proof.
  apply (String_of_node_snippet (EX:=Demo.ext) Demo.r1 Demo.loaded_state
           {| TargetNode := Some Demo.r1; templateName := "base-node.tmpl";
              source := "node"; templateLabels := clab.Labels Demo.r1;
              Config := Scanner_tokens "hostname r1" |}
           (with_log Demo.loaded_state
              (Debug_render_node (clab.LongName Demo.r1) (kind_of Demo.r1)))).
  rewrite RenderNode_run.
  rewrite (RenderTemplate_loaded (EX:=Demo.ext) _ _ _ _
             "hostname r1" "hostname r1"); [reflexivity| |];
    vm_compute; reflexivity.
Defined.


Section LinkFailures.

Context {MO : MapOrder} {EX : Externals}.

Variable link : clab.Link.

Local Abbreviation nodeA := (clab.EndpointNode (clab.A link)).
Local Abbreviation nodeB := (clab.EndpointNode (clab.B link)).

(** X15: [RenderLink] stops at the first failure.  When the address
    assignment fails, its error comes back behind the link's display
    string and the state is untouched: nothing is logged and no template
    is looked up.  When the template of side A fails, the error comes back
    behind the link, the long name and the kind of node A, and side B is
    not rendered, whatever its kind: not even a kind that is not loaded
    makes the call panic. *)
Theorem RenderLink_first_failure st :
  (forall err,
     linkIPfromSystemIP link = inr err ->
     RenderLink link st = Done (inr (Link_String link +:+ ": " +:+ err), st)) /\
  (forall ipA ipB tA outA err,
     linkIPfromSystemIP link = inl (ipA, ipB) ->
     cached st (kind_of nodeA) = Some tA ->
     Execute tA "base-link.tmpl" (sideA_result link ipA ipB)
       = Done (outA, Some err) ->
     RenderLink link st =
       Done (inr ("render " +:+ Link_String link +:+ " on "
                  +:+ clab.LongName nodeA +:+ " (" +:+ kind_of nodeA
                  +:+ "): " +:+ err),
             with_log (with_log (sideA_state link ipA ipB st)
                         (Error_could_not_render err))
               (Debug_labels_json (sideA_result link ipA ipB)))).
Proof.
  split.
  - intros err Hip. unfold RenderLink. by rewrite Hip.
  - intros ipA ipB tA outA err Hip HtA HeA.
    unfold RenderLink. rewrite Hip.
    unfold mbind at 1. unfold M_bind at 1. rewrite link_pairs_run.
    unfold mbind at 1. unfold M_bind at 1. cbn [logf].
    unfold mbind at 1. unfold M_bind at 1.
    rewrite (render_side_run link _ 0 _ _ (side_labels_A link ipA ipB)).
    cbn zeta. case_decide; [|done].
    by rewrite (RenderTemplate_error _ _ _ _ tA outA err) by done.
Qed.

(** X16: [RenderLink] is all or nothing: when side A renders and the
    template of side B fails, the call returns only the error, behind the
    link, the long name and the kind of node B, and the snippet of side A
    is dropped. *)
Theorem RenderLink_side_B_fails st ipA ipB tA outA tB outB err :
  linkIPfromSystemIP link = inl (ipA, ipB) ->
  cached st (kind_of nodeA) = Some tA ->
  Execute tA "base-link.tmpl" (sideA_result link ipA ipB) = Done (outA, None) ->
  cached st (kind_of nodeB) = Some tB ->
  Execute tB "base-link.tmpl" (sideB_result link ipA ipB)
    = Done (outB, Some err) ->
  RenderLink link st =
    Done (inr ("render " +:+ Link_String link +:+ " on "
               +:+ clab.LongName nodeB +:+ " (" +:+ kind_of nodeB
               +:+ "): " +:+ err),
          with_log (with_log (sideB_state link ipA ipB st)
                      (Error_could_not_render err))
            (Debug_labels_json (sideB_result link ipA ipB))).
Proof.
  intros Hip HtA HeA HtB HeB.
  unfold RenderLink. rewrite Hip.
  unfold mbind at 1. unfold M_bind at 1. rewrite link_pairs_run.
  unfold mbind at 1. unfold M_bind at 1. cbn [logf].
  unfold mbind at 1. unfold M_bind at 1.
  rewrite (render_side_run link _ 0 _ _ (side_labels_A link ipA ipB)).
  cbn zeta. case_decide; [|done].
  rewrite (RenderTemplate_loaded _ _ _ _ tA outA) by done.
  unfold mbind at 1. unfold M_bind at 1.
  rewrite (render_side_run link _ 1 _ _ (side_labels_B link ipA ipB)).
  cbn zeta. case_decide; [done|].
  by rewrite (RenderTemplate_error _ _ _ _ tB outB err) by done.
Qed.

End LinkFailures.

Lemma RenderLink_first_failure_witness :
  RenderLink (MO:=Demo.order) (EX:=Demo2.ext)
    (Demo2.link_to Demo2.r3 Demo2.r4) Demo2.state =
    Done (inr ("render " +:+ "link" +:+ " on " +:+ "lab-r3" +:+ " ("
               +:+ kind_of Demo2.r3 +:+ "): " +:+ "boom"),
          with_log (with_log
                      (sideA_state (MO:=Demo.order) (EX:=Demo2.ext)
                         (Demo2.link_to Demo2.r3 Demo2.r4)
                         Demo.addr_A Demo.addr_B Demo2.state)
                      (Error_could_not_render "boom"))
            (Debug_labels_json
               (sideA_result (MO:=Demo.order) (EX:=Demo2.ext)
                  (Demo2.link_to Demo2.r3 Demo2.r4) Demo.addr_A Demo.addr_B))).
Proof.
  apply (proj2 (RenderLink_first_failure (MO:=Demo.order) (EX:=Demo2.ext)
                  (Demo2.link_to Demo2.r3 Demo2.r4) Demo2.state)
           Demo.addr_A Demo.addr_B Demo2.bad "" "boom").
  - reflexivity.
  - vm_compute. reflexivity.
  - reflexivity.
Defined.

Lemma RenderLink_side_B_fails_witness :
  RenderLink (MO:=Demo.order) (EX:=Demo2.ext)
    (Demo2.link_to Demo.r1 Demo2.r3) Demo2.state =
    Done (inr ("render " +:+ "link" +:+ " on " +:+ "lab-r3" +:+ " ("
               +:+ kind_of Demo2.r3 +:+ "): " +:+ "boom"),
          with_log (with_log
                      (sideB_state (MO:=Demo.order) (EX:=Demo2.ext)
                         (Demo2.link_to Demo.r1 Demo2.r3)
                         Demo.addr_A Demo.addr_B Demo2.state)
                      (Error_could_not_render "boom"))
            (Debug_labels_json
               (sideB_result (MO:=Demo.order) (EX:=Demo2.ext)
                  (Demo2.link_to Demo.r1 Demo2.r3) Demo.addr_A Demo.addr_B))).
Proof.
  apply (RenderLink_side_B_fails (MO:=Demo.order) (EX:=Demo2.ext)
           (Demo2.link_to Demo.r1 Demo2.r3) Demo2.state
           Demo.addr_A Demo.addr_B Demo2.good
           ("interface e1" +:+ String newline "") Demo2.bad "" "boom").
  - reflexivity.
  - vm_compute. reflexivity.
  - reflexivity.
  - vm_compute. reflexivity.
  - reflexivity.
Defined.

(** ** Loading and then rendering *)

Section LoadAndRender.

Context {EX : Externals}.

(** X17: the first load of a kind whose templates compile stores the
    compiled set under the kind and leaves the sets of all other kinds as
    they were; from then on [RenderTemplate] for the kind executes that set
    and no longer panics. *)
Theorem first_load_then_render fs kind path st t :
  default ∅ (templates st) !! kind = None ->
  ParseGlob fs kind (filepath_Join [path; kind; "*.tmpl"]) = (Some t, None) ->
  exists st',
    LoadTemplate fs kind path st = Done (None, st') /\
    cached st' kind = Some t /\
    (forall k, k <> kind -> cached st' k = cached st k) /\
    logs st' = logs st ++ [Debug_load_templates_from
                             (filepath_Join [path; kind; "*.tmpl"])] /\
    forall name labels out,
      Execute t name labels = Done (out, None) ->
      RenderTemplate kind name labels st' =
        Done (inl {| TargetNode := None; templateName := name; source := "";
                     templateLabels := labels;
                     Config := Scanner_tokens out |}, st').
Proof.
  intros Hfree Hparse.
  exists {| templates := Some (<[kind := Some t]> (default ∅ (templates st)));
            logs := logs st ++ [Debug_load_templates_from
                                  (filepath_Join [path; kind; "*.tmpl"])] |}.
  assert (forall m : gmap string (option Template),
            default None (<[kind := Some t]> m !! kind) = Some t) as Hkind.
  { intros m. by rewrite lookup_insert_eq. }
  split; [|split; [|split; [|split]]].
  - unfold LoadTemplate, mbind, M_bind, make_templates, lookup_template,
      store_template, logf.
    destruct (templates st) as [m|] eqn:Hm;
      cbn [default from_option id templates logs] in *.
    + rewrite Hm. cbn [default from_option id]. rewrite Hfree, Hparse.
      cbn [templates logs]. rewrite Hm. reflexivity.
    + rewrite lookup_empty, Hparse. cbn [templates logs]. reflexivity.
  - unfold cached. cbn [templates default from_option id]. apply Hkind.
  - intros k Hk. unfold cached. cbn [templates default from_option id].
    by rewrite lookup_insert_ne.
  - done.
  - intros name labels out Hexec.
    apply (RenderTemplate_loaded _ _ _ _ t out); [|done].
    unfold cached. cbn [templates default from_option id]. apply Hkind.
Qed.

End LoadAndRender.

Lemma first_load_then_render_witness :
  exists st',
    LoadTemplate (EX:=Demo.ext) Demo.disk_ok "srl" "/tmpl" Demo.empty_state
      = Done (None, st') /\
    cached st' "srl" = Some "hostname r1" /\
    (forall k, k <> "srl" -> cached st' k = cached Demo.empty_state k) /\
    logs st' = logs Demo.empty_state ++
               [Debug_load_templates_from
                  (filepath_Join (Externals:=Demo.ext) ["/tmpl"; "srl"; "*.tmpl"])] /\
    forall name labels out,
      Execute (Externals:=Demo.ext) "hostname r1" name labels = Done (out, None) ->
      RenderTemplate (EX:=Demo.ext) "srl" name labels st' =
        Done (inl {| TargetNode := None; templateName := name; source := "";
                     templateLabels := labels;
                     Config := Scanner_tokens out |}, st').
Proof.
  apply (first_load_then_render (EX:=Demo.ext) Demo.disk_ok "srl" "/tmpl"
           Demo.empty_state "hostname r1"); reflexivity.
Defined.

(** ** The lines of a snippet *)

Lemma raw_lines_nil out : raw_lines out = [] <-> out = "".
Proof.
  destruct out as [|c rest]; [done|]. cbn [raw_lines].
  destruct (Ascii.eqb c newline); [done|].
  by destruct (raw_lines rest).
Qed.

(** The runs joined by newlines are the data without its final newline. *)
Lemma raw_lines_concat out :
  String.concat (String newline "") (raw_lines out) = chomp out.
Proof.
  induction out as [|c rest IH]; [done|].
  cbn [raw_lines chomp]. destruct (Ascii.eqb c newline) eqn:Hc.
  - apply Ascii.eqb_eq in Hc as ->.
    destruct rest as [|d rest]; [done|].
    rewrite concat_cons_nonempty by (rewrite raw_lines_nil; done).
    by rewrite IH.
  - destruct rest as [|d rest]; [done|].
    destruct (raw_lines (String d rest)) as [|t ts] eqn:Hr.
    { by apply raw_lines_nil in Hr. }
    by rewrite concat_cons_head, IH.
Qed.

Lemma raw_lines_no_newline out :
  Forall (fun line => contains_byte line newline = false) (raw_lines out).
Proof.
  induction out as [|c rest IH]; [constructor|].
  cbn [raw_lines]. destruct (Ascii.eqb c newline) eqn:Hc.
  - by constructor.
  - destruct (raw_lines rest) as [|t ts].
    + constructor; [|done]. cbn. by rewrite Hc.
    + apply Forall_cons in IH as [Ht Hts].
      constructor; [|done]. cbn. by rewrite Hc.
Qed.

(** A final newline after a byte that is no newline starts no new run. *)
Lemma raw_lines_final_newline out :
  out <> "" -> last_byte out <> Some newline ->
  raw_lines (out +:+ String newline "") = raw_lines out.
Proof.
  induction out as [|c rest IH]; [done|]. intros _ Hlast.
  rewrite string_app_cons. cbn [raw_lines].
  destruct rest as [|d rest].
  - cbn in Hlast. rewrite string_app_nil_l. cbn [raw_lines].
    rewrite Ascii.eqb_refl.
    destruct (Ascii.eqb c newline) eqn:Hc; [|done].
    apply Ascii.eqb_eq in Hc. congruence.
  - rewrite IH; [done|done|]. exact Hlast.
Qed.

Lemma dropCR_cons c d s :
  dropCR (String c (String d s)) = String c (dropCR (String d s)).
Proof. reflexivity. Qed.

Lemma dropCR_length s : String.length (dropCR s) <= String.length s.
Proof.
  induction s as [|c [|d s] IH]; [done| |].
  - cbn [dropCR]. destruct (Ascii.eqb c carriage_return); cbn; lia.
  - rewrite dropCR_cons. cbn [String.length] in *. lia.
Qed.

Lemma dropCR_contains s b :
  contains_byte s b = false -> contains_byte (dropCR s) b = false.
Proof.
  induction s as [|c [|d s] IH]; [done| |].
  - cbn [dropCR]. destruct (Ascii.eqb c carriage_return); [done|done].
  - rewrite dropCR_cons. cbn [contains_byte].
    intros [Hc Hs]%orb_false_iff. rewrite Hc. cbn [orb]. by apply IH.
Qed.

Lemma dropCR_id s : last_byte s <> Some carriage_return -> dropCR s = s.
Proof.
  induction s as [|c [|d s] IH]; [done| |].
  - cbn [dropCR last_byte]. destruct (Ascii.eqb c carriage_return) eqn:Hc; [|done].
    apply Ascii.eqb_eq in Hc. congruence.
  - rewrite dropCR_cons. intros Hlast. by rewrite IH.
Qed.

Lemma scan_while_fits_lines runs :
  Forall (fun line => contains_byte line newline = false) runs ->
  Forall (fun line => contains_byte line newline = false /\
                      String.length line < MaxScanTokenSize)
         (scan_while_fits runs).
Proof.
  induction 1 as [|r rs Hr _ IH]; [constructor|].
  cbn [scan_while_fits]. unfold fits.
  destruct (Nat.ltb_spec (String.length r) MaxScanTokenSize); [|constructor].
  constructor; [|done]. split; [by apply dropCR_contains|].
  pose proof (dropCR_length r). lia.
Qed.

Section Lines.

Context {EX : Externals}.

(** X18: when every line of the rendered output is shorter than the
    scanner's buffer and none ends with a carriage return, the lines of the
    snippet joined by newlines are the output without its final newline:
    nothing of the output is lost or changed. *)
Theorem Config_joined_is_output st kind name labels t out :
  cached st kind = Some t ->
  Execute t name labels = Done (out, None) ->
  Forall (fun line => String.length line < MaxScanTokenSize /\
                      last_byte line <> Some carriage_return)
         (split_on_line_boundaries out) ->
  exists res,
    RenderTemplate kind name labels st = Done (inl res, st) /\
    String.concat (String newline "") (Config res) = chomp out.
Proof.
  intros Ht Hexec Hlines.
  eexists. split; [by apply (RenderTemplate_loaded _ _ _ _ t out)|].
  cbn [Config]. rewrite <- raw_lines_concat. f_equal.
  unfold Scanner_tokens. rewrite raw_lines_split.
  induction Hlines as [|line lines [Hfit Hcr] _ IH]; [done|].
  cbn [scan_while_fits]. unfold fits.
  destruct (Nat.ltb_spec (String.length line) MaxScanTokenSize); [|lia].
  by rewrite IH, dropCR_id.
Qed.

(** X19: whatever the template prints, no line of a returned snippet has a
    newline in it and every line is shorter than the scanner's buffer. *)
Theorem Config_lines_bounded st kind name labels res st' :
  RenderTemplate kind name labels st = Done (inl res, st') ->
  Forall (fun line => contains_byte line newline = false /\
                      String.length line < MaxScanTokenSize)
         (Config res).
Proof.
  intros Hr. apply RenderTemplate_success in Hr
    as (t & out & _ & _ & _ & -> & _).
  apply scan_while_fits_lines, raw_lines_no_newline.
Qed.

(** X20: a newline at the end of the output adds no line: two renderings
    whose outputs differ only in a final newline, after an output that is
    not empty and does not end with a newline itself, give the same
    lines. *)
Theorem final_newline_adds_no_line st k1 n1 l1 t1 k2 n2 l2 t2 out :
  cached st k1 = Some t1 -> cached st k2 = Some t2 ->
  Execute t1 n1 l1 = Done (out, None) ->
  Execute t2 n2 l2 = Done (out +:+ String newline "", None) ->
  out <> "" -> last_byte out <> Some newline ->
  exists r1 r2,
    RenderTemplate k1 n1 l1 st = Done (inl r1, st) /\
    RenderTemplate k2 n2 l2 st = Done (inl r2, st) /\
    Config r1 = Config r2.
Proof.
  intros Ht1 Ht2 He1 He2 Hne Hlast.
  do 2 eexists.
  split; [by apply (RenderTemplate_loaded _ _ _ _ t1 out)|].
  split; [by apply (RenderTemplate_loaded _ _ _ _ t2 _ Ht2 He2)|].
  cbn [Config]. unfold Scanner_tokens.
  by rewrite raw_lines_final_newline.
Qed.

End Lines.


(** ** The [rare] node *)

Lemma intf_key_inj : Inj (=) (=) rare.intf_key.
Proof.
  intros i j Heq. unfold rare.intf_key in Heq.
  cbv [String.append] in Heq. injection Heq as Heq.
  apply (inj pretty) in Heq. lia.
Qed.

(** The loop over the endpoints sets the variable of each endpoint and
    touches no other key. *)
Lemma endpoints_env_other eps i env k :
  (forall j, j < length eps -> k <> rare.intf_key (i + j + 1)) ->
  rare.endpoints_env i eps env !! k = env !! k.
Proof.
  revert i env. induction eps as [|e eps IH]; intros i env Hk; [done|].
  cbn [rare.endpoints_env]. rewrite IH.
  - rewrite lookup_insert_ne; [done|].
    intros Heq. apply (Hk 0); cbn; [lia|]. by rewrite Nat.add_0_r.
  - intros j Hj. replace (S i + j + 1) with (i + S j + 1) by lia.
    apply Hk. cbn. lia.
Qed.

Lemma endpoints_env_set eps i env j e :
  eps !! j = Some e ->
  rare.endpoints_env i eps env !! rare.intf_key (i + j + 1)
    = Some (rare.IfaceName e).
Proof.
  revert i env j. induction eps as [|e0 eps IH]; intros i env j He; [done|].
  cbn [rare.endpoints_env]. destruct j as [|j].
  - injection He as ->. rewrite endpoints_env_other.
    + rewrite Nat.add_0_r. by rewrite lookup_insert_eq.
    + intros j _ Heq. apply intf_key_inj in Heq. lia.
  - replace (i + S j + 1) with (S i + j + 1) by lia. by apply IH.
Qed.

Lemma genInterfacesEnv_eth0 (n : rare.node) :
  rare.Env (rare.Cfg (rare.genInterfacesEnv n)) !! "CLAB_INTF_0" = Some "eth0".
Proof.
  unfold rare.genInterfacesEnv. cbn [rare.Cfg rare.Env].
  rewrite endpoints_env_other; [by rewrite lookup_insert_eq|].
  intros j _. change "CLAB_INTF_0" with (rare.intf_key 0).
  intros Heq. apply intf_key_inj in Heq. lia.
Qed.

Lemma genInterfacesEnv_endpoint (n : rare.node) j e :
  rare.Endpoints n !! j = Some e ->
  rare.Env (rare.Cfg (rare.genInterfacesEnv n)) !! rare.intf_key (S j)
  = Some (rare.IfaceName e).
Proof.
  intros He. unfold rare.genInterfacesEnv. cbn [rare.Cfg rare.Env].
  replace (S j) with (0 + j + 1) by lia. by apply endpoints_env_set.
Qed.

Lemma genInterfacesEnv_other (n : rare.node) k :
  (forall j, j <= length (rare.Endpoints n) -> k <> rare.intf_key j) ->
  rare.Env (rare.Cfg (rare.genInterfacesEnv n)) !! k
  = rare.Env (rare.Cfg n) !! k.
Proof.
  intros Hk. unfold rare.genInterfacesEnv. cbn [rare.Cfg rare.Env].
  rewrite endpoints_env_other.
  - rewrite lookup_insert_ne; [done|].
    change "CLAB_INTF_0" with (rare.intf_key 0).
    intros Heq. apply (Hk 0); [lia | done].
  - intros j Hj. apply Hk. lia.
Qed.

(** X21: [genInterfacesEnv] sets [CLAB_INTF_0] to [eth0] and, for the
    endpoint at index [j], [CLAB_INTF_<j+1>] to its interface name; every
    key that is none of these keeps its value, and nothing but the
    environment of the node changes. *)
Theorem genInterfacesEnv_env (n : rare.node) :
  let n' := rare.genInterfacesEnv n in
  rare.Env (rare.Cfg n') !! "CLAB_INTF_0" = Some "eth0" /\
  (forall j e, rare.Endpoints n !! j = Some e ->
     rare.Env (rare.Cfg n') !! rare.intf_key (S j) = Some (rare.IfaceName e)) /\
  (forall k, (forall j, j <= length (rare.Endpoints n) -> k <> rare.intf_key j) ->
     rare.Env (rare.Cfg n') !! k = rare.Env (rare.Cfg n) !! k) /\
  rare.Endpoints n' = rare.Endpoints n /\
  rare.LongName (rare.Cfg n') = rare.LongName (rare.Cfg n) /\
  rare.LabDir (rare.Cfg n') = rare.LabDir (rare.Cfg n) /\
  rare.Binds (rare.Cfg n') = rare.Binds (rare.Cfg n).
Proof.
  cbn zeta. split; [|split; [|split]]; [| | |done].
  - apply genInterfacesEnv_eth0.
  - apply genInterfacesEnv_endpoint.
  - apply genInterfacesEnv_other.
Qed.

(** The interface variables that are there without a gap are no more than
    the environment has entries. *)
Lemma present_keys_bound (env : gmap string string) k :
  (forall j, j < k -> is_Some (env !! rare.intf_key j)) -> k <= size env.
Proof.
  intros Hpresent. pose proof intf_key_inj as Hinj.
  assert (NoDup (rare.intf_key <$> seq 0 k)) as Hnd.
  { apply NoDup_fmap_2; [done | apply NoDup_seq]. }
  assert (size (list_to_set (C:=gset string) (rare.intf_key <$> seq 0 k)) = k)
    as Hsize.
  { rewrite size_list_to_set by done. by rewrite length_fmap, length_seq. }
  rewrite <- (size_dom (D:=gset string) env). rewrite <- Hsize at 1.
  apply subseteq_size. intros key Hkey.
  apply elem_of_list_to_set, list_elem_of_fmap in Hkey as (j & -> & Hj).
  apply elem_of_seq in Hj. apply elem_of_dom, Hpresent. lia.
Qed.

Section RareLoops.

Context {H : rare.Host}.

(** The loop over the interface variables runs the commands of the
    variables it finds, in the order of their numbers, up to the first
    number that is missing. *)
Lemma disable_interfaces_run ifaces fuel i cfg w tr :
  (forall j iface, ifaces !! j = Some iface ->
     rare.Env cfg !! rare.intf_key (i + j) = Some iface) ->
  rare.Env cfg !! rare.intf_key (i + length ifaces) = None ->
  length ifaces < fuel ->
  rare.disable_interfaces fuel i cfg w tr
    = Some (rare.run_for_interfaces ifaces cfg w tr).
Proof.
  revert fuel i w tr.
  induction ifaces as [|iface ifaces IH]; intros fuel i w tr Hset Hgap Hfuel.
  - destruct fuel as [|fuel]; [cbn in Hfuel; lia|].
    cbn [rare.disable_interfaces rare.run_for_interfaces].
    cbn [length] in Hgap. rewrite Nat.add_0_r in Hgap. by rewrite Hgap.
  - destruct fuel as [|fuel]; [cbn in Hfuel; lia|].
    cbn [rare.disable_interfaces rare.run_for_interfaces].
    pose proof (Hset 0 iface eq_refl) as H0. rewrite Nat.add_0_r in H0.
    rewrite H0. cbn zeta.
    destruct (rare.CombinedOutput _ w) as [[output [err|]] w']; cbn [fst snd];
      [done|].
    apply IH.
    + intros j x Hj. replace (S i + j) with (i + S j) by lia. by apply Hset.
    + cbn [length] in Hgap. by replace (S i + length ifaces)
        with (i + S (length ifaces)) by lia.
    + cbn [length] in Hfuel. lia.
Qed.

(** In any environment the interface variables come to a first gap. *)
Lemma first_gap (env : gmap string string) fuel i :
  exists ifaces,
    length ifaces <= fuel /\
    (forall j iface, ifaces !! j = Some iface ->
       env !! rare.intf_key (i + j) = Some iface) /\
    (length ifaces < fuel -> env !! rare.intf_key (i + length ifaces) = None).
Proof.
  revert i. induction fuel as [|fuel IH]; intros i.
  - exists []. split; [done|]. split; [done|]. cbn. lia.
  - destruct (env !! rare.intf_key i) as [iface|] eqn:Hi.
    + destruct (IH (S i)) as (ifaces & Hlen & Hset & Hgap).
      exists (iface :: ifaces). split; [cbn; lia|]. split.
      * intros [|j] x Hj.
        -- injection Hj as <-. by rewrite Nat.add_0_r.
        -- replace (i + S j) with (S i + j) by lia. by apply Hset.
      * cbn [length]. intros Hlt.
        replace (i + S (length ifaces)) with (S i + length ifaces) by lia.
        apply Hgap. lia.
    + exists []. split; [cbn; lia|]. split; [done|].
      intros _. cbn. by rewrite Nat.add_0_r.
Qed.

(** X22: the loop of [PostDeploy] over the interface variables has no
    bound of its own, and yet it ends within one round more than the
    environment has entries.  It runs the sysctl command of
    [CLAB_INTF_0], [CLAB_INTF_1], ... in this order up to the first number
    that has no variable, stops at the first command that fails, and never
    looks at a variable behind a gap. *)
Theorem interface_loop_ends cfg w tr :
  exists ifaces,
    rare.disable_interfaces (S (size (rare.Env cfg))) 0 cfg w tr
      = Some (rare.run_for_interfaces ifaces cfg w tr) /\
    length ifaces <= size (rare.Env cfg) /\
    (forall j iface, ifaces !! j = Some iface ->
       rare.Env cfg !! rare.intf_key j = Some iface) /\
    rare.Env cfg !! rare.intf_key (length ifaces) = None.
Proof.
  destruct (first_gap (rare.Env cfg) (S (size (rare.Env cfg))) 0)
    as (ifaces & Hlen & Hset & Hgap).
  assert (length ifaces <= size (rare.Env cfg)) as Hbound.
  { apply present_keys_bound. intros j Hj.
    destruct (lookup_lt_is_Some_2 ifaces j Hj) as [iface Hiface].
    exists iface. by apply (Hset j). }
  exists ifaces. split; [|split; [done|split]].
  - apply disable_interfaces_run; [done| |lia]. apply Hgap. lia.
  - intros j iface. apply (Hset j).
  - apply (Hgap ltac:(lia)).
Qed.

(** X23: after [genInterfacesEnv] on a node whose environment has no
    variable left over behind those of its endpoints, [PostDeploy], once
    the container runs, disables IPv6 on [eth0] and then on the interface
    of every endpoint, in the order of the endpoints, and only then
    globally; it stops at the first of these commands that fails. *)
Theorem PostDeploy_after_genInterfacesEnv polls (n : rare.node) w w1 tr1 :
  rare.Env (rare.Cfg n) !! rare.intf_key (S (length (rare.Endpoints n))) = None ->
  rare.wait_running polls (rare.LongName (rare.Cfg n)) w [] = Some (w1, tr1) ->
  let n' := rare.genInterfacesEnv n in
  rare.PostDeploy polls n' w =
    Some (match rare.run_for_interfaces
                  ("eth0" :: (rare.IfaceName <$> rare.Endpoints n))
                  (rare.Cfg n') w1 tr1 with
          | (Some err, w2, tr2) => (Some err, w2, tr2)
          | (None, w2, tr2) =>
              rare.disable_globally rare.sysctlCommands (rare.Cfg n') w2 tr2
          end).
Proof.
  intros Hclean Hwait n'.
  pose proof (genInterfacesEnv_eth0 n) as Heth0.
  pose proof (genInterfacesEnv_endpoint n) as Hset.
  pose proof (genInterfacesEnv_other n) as Hother.
  assert (rare.LongName (rare.Cfg n') = rare.LongName (rare.Cfg n)) as Hname
    by done.
  fold n' in Heth0, Hset, Hother.
  assert (forall j iface,
            ("eth0" :: (rare.IfaceName <$> rare.Endpoints n)) !! j = Some iface ->
            rare.Env (rare.Cfg n') !! rare.intf_key (0 + j) = Some iface) as Hkeys.
  { intros [|j] iface Hj.
    - by injection Hj as <-.
    - change ((rare.IfaceName <$> rare.Endpoints n) !! j = Some iface) in Hj.
      rewrite list_lookup_fmap in Hj.
      destruct (rare.Endpoints n !! j) as [e|] eqn:He; [|done].
      injection Hj as <-. by apply Hset. }
  assert (rare.Env (rare.Cfg n')
            !! rare.intf_key (0 + length ("eth0" :: (rare.IfaceName <$> rare.Endpoints n)))
          = None) as Hgap.
  { cbn [length]. rewrite length_fmap. cbn [Nat.add]. rewrite Hother; [done|].
    intros j Hj Heq. apply intf_key_inj in Heq. lia. }
  unfold rare.PostDeploy. rewrite Hname, Hwait.
  rewrite (disable_interfaces_run _ _ _ _ _ _ Hkeys Hgap).
  - by destruct (rare.run_for_interfaces _ _ _ _) as [[[err|] w2] tr2].
  - apply Nat.lt_succ_r. apply present_keys_bound. intros j Hj.
    destruct (lookup_lt_is_Some_2 _ j Hj) as [iface Hiface].
    exists iface. by apply (Hkeys j).
Qed.

(** X24: [PostDeploy] waits as long as the container does not run: a poll
    that fails or prints anything but "true" and a newline is followed by
    a sleep of two seconds and the next poll, never by an error.  When the
    first [k] polls find it not running and the next one finds it running,
    the wait ends there, after [k] sleeps, if more than [k] polls are
    granted, and is still waiting otherwise. *)
Theorem wait_until_running k polls longName w tr :
  (forall j, j < k ->
     rare.not_running
       (rare.CombinedOutput (rare.inspect_running longName)
          (rare.after_polls j longName w)).1 = true) ->
  rare.not_running
    (rare.CombinedOutput (rare.inspect_running longName)
       (rare.after_polls k longName w)).1 = false ->
  (k < polls ->
   rare.wait_running polls longName w tr =
     Some (rare.after_polls (S k) longName w,
           tr ++ rare.waiting_events k longName
              ++ [rare.Exec (rare.inspect_running longName)])) /\
  (polls <= k -> rare.wait_running polls longName w tr = None).
Proof.
  revert polls w tr. induction k as [|k IH]; intros polls w tr Hnot Hrun.
  - split; [|by intros ->%Nat.le_0_r].
    destruct polls as [|polls]; [lia|]. intros _.
    cbn [rare.wait_running rare.after_polls rare.waiting_events] in *.
    by rewrite Hrun.
  - pose proof (Hnot 0 ltac:(lia)) as H0. cbn [rare.after_polls] in H0.
    destruct polls as [|polls]; [split; [lia|done]|].
    cbn [rare.wait_running]. rewrite H0.
    destruct (IH polls
                (rare.CombinedOutput (rare.inspect_running longName) w).2
                (tr ++ [rare.Exec (rare.inspect_running longName);
                        rare.Info_not_yet_running longName; rare.Sleep 2]))
      as [Hlt Hge].
    { intros j Hj. apply (Hnot (S j)). lia. }
    { exact Hrun. }
    split.
    + intros Hk. rewrite Hlt by lia.
      cbn [rare.after_polls rare.waiting_events].
      by rewrite <- !app_assoc.
    + intros Hk. apply Hge. lia.
Qed.

End RareLoops.

Lemma PostDeploy_after_genInterfacesEnv_witness :
  rare.PostDeploy (H:=rare.demo_host) 5
    (rare.genInterfacesEnv rare.demo_node) 0 =
    Some (match rare.run_for_interfaces (H:=rare.demo_host)
                  ("eth0" :: (rare.IfaceName <$> rare.Endpoints rare.demo_node))
                  (rare.Cfg (rare.genInterfacesEnv rare.demo_node)) 3
                  [rare.Exec (rare.inspect_running "clab-r1");
                   rare.Info_not_yet_running "clab-r1"; rare.Sleep 2;
                   rare.Exec (rare.inspect_running "clab-r1");
                   rare.Info_not_yet_running "clab-r1"; rare.Sleep 2;
                   rare.Exec (rare.inspect_running "clab-r1")] with
          | (Some err, w2, tr2) => (Some err, w2, tr2)
          | (None, w2, tr2) =>
              rare.disable_globally (H:=rare.demo_host) rare.sysctlCommands
                (rare.Cfg (rare.genInterfacesEnv rare.demo_node)) w2 tr2
          end).
Proof.
  apply (PostDeploy_after_genInterfacesEnv (H:=rare.demo_host) 5
           rare.demo_node 0 3).
  - vm_compute. reflexivity.
  - vm_compute. reflexivity.
Defined.

Lemma wait_until_running_witness :
  (2 < 5 ->
   rare.wait_running (H:=rare.demo_host) 5 "clab-r1" 0 [] =
     Some (rare.after_polls (H:=rare.demo_host) 3 "clab-r1" 0,
           [] ++ rare.waiting_events 2 "clab-r1"
              ++ [rare.Exec (rare.inspect_running "clab-r1")])) /\
  (5 <= 2 -> rare.wait_running (H:=rare.demo_host) 5 "clab-r1" 0 [] = None).
Proof.
  apply (wait_until_running (H:=rare.demo_host) 2 5 "clab-r1" 0 []).
  - intros [|[|j]] Hj; [reflexivity | reflexivity | lia].
  - reflexivity.
Defined.

(** ** Integers as text *)

Lemma parse_digits_app a b acc :
  parse_digits acc (a +:+ b) =
    match parse_digits acc a with
    | Some v => parse_digits v b
    | None => None
    end.
Proof.
  revert acc. induction a as [|c a IH]; intros acc; [done|].
  rewrite string_app_cons. cbn [parse_digits].
  destruct (digit_value c); [apply IH | done].
Qed.

Lemma digit_value_char d :
  (d < 10)%N -> digit_value (pretty_N_char d) = Some (Z.of_N d).
Proof.
  intros Hd.
  assert (d = 0 \/ d = 1 \/ d = 2 \/ d = 3 \/ d = 4 \/ d = 5 \/ d = 6 \/ d = 7
          \/ d = 8 \/ d = 9)%N as Hcases by lia.
  repeat destruct Hcases as [->|Hcases]; try reflexivity.
  by subst.
Qed.

Lemma contains_byte_app a b c :
  contains_byte (a +:+ b) c = contains_byte a c || contains_byte b c.
Proof.
  induction a as [|d a IH]; [done|].
  rewrite string_app_cons. cbn [contains_byte]. by rewrite IH, orb_assoc.
Qed.

Lemma string_app_assoc (a b c : string) : (a +:+ b) +:+ c = a +:+ b +:+ c.
Proof.
  induction a as [|d a IH]; [done|]. by rewrite !string_app_cons, IH.
Qed.

(** The decimal digits of a number: they are digits, at least one for a
    number that is not zero, and read back they give the number. *)
Lemma pretty_N_go_digits x :
  exists ds,
    (forall s, pretty_N_go x s = ds +:+ s) /\
    (forall c, contains_byte ds c = true -> is_Some (digit_value c)) /\
    ((0 < x)%N -> ds <> "") /\
    (forall acc, parse_digits acc ds
                 = Some (acc * 10 ^ Z.of_nat (String.length ds) + Z.of_N x)%Z).
Proof.
  induction (N.lt_wf_0 x) as [x _ IH].
  assert (x = 0 \/ 0 < x)%N as [->|Hpos] by lia.
  { exists "". split; [done|]. split; [done|]. split; [lia|].
    intros acc. cbn. f_equal. lia. }
  destruct (IH (x `div` 10)%N) as (ds & Hgo & Hdig & _ & Hparse).
  { by apply N.div_lt. }
  assert (x `mod` 10 < 10)%N as Hmod by (by apply N.mod_lt).
  exists (ds +:+ String (pretty_N_char (x `mod` 10)) "").
  split; [|split; [|split]].
  - intros s. rewrite pretty_N_go_step by done. rewrite Hgo.
    by rewrite string_app_assoc.
  - intros c. rewrite contains_byte_app. cbn [contains_byte].
    rewrite orb_false_r. intros [Hc|Hc]%orb_true_iff; [by apply Hdig|].
    apply Ascii.eqb_eq in Hc as <-. rewrite digit_value_char by done. eauto.
  - intros _. by destruct ds.
  - intros acc. rewrite parse_digits_app, Hparse. cbn [parse_digits].
    rewrite digit_value_char by done. f_equal.
    rewrite string_length_app. cbn [String.length].
    rewrite Nat2Z.inj_add, Z.pow_add_r by lia.
    pose proof (N.div_mod x 10 ltac:(done)) as Hx.
    apply (f_equal Z.of_N) in Hx. rewrite N2Z.inj_add, N2Z.inj_mul in Hx.
    change (10 ^ Z.of_nat 1)%Z with 10%Z. change (Z.of_N 10) with 10%Z in Hx.
    lia.
Qed.

Lemma digit_not_sign c :
  is_Some (digit_value c) ->
  Ascii.eqb c "-"%char = false /\ Ascii.eqb c "+"%char = false /\
  Ascii.eqb c " "%char = false /\ Ascii.eqb c "["%char = false /\
  Ascii.eqb c "]"%char = false.
Proof.
  intros [d Hd]. repeat split; apply Ascii.eqb_neq; intros ->; discriminate.
Qed.

(** The decimal form of an integer: digits, at least one, behind a minus
    sign for a negative integer, that read back give its magnitude. *)
Lemma pretty_Z_digits (z : Z) :
  exists ds,
    pretty z = (if (z <? 0)%Z then String "-"%char ds else ds) /\
    ds <> "" /\
    (forall c, contains_byte ds c = true -> is_Some (digit_value c)) /\
    parse_digits 0 ds = Some (Z.abs z).
Proof.
  destruct z as [|p|p].
  - exists "0". split; [done|]. split; [done|]. split; [|done].
    intros c Hc. cbn [contains_byte] in Hc. rewrite orb_false_r in Hc.
    apply Ascii.eqb_eq in Hc as <-. by eexists.
  - destruct (pretty_N_go_digits (N.pos p)) as (ds & Hgo & Hdig & Hne & Hparse).
    exists ds. split; [|split; [by apply Hne|split; [done|]]].
    + change (pretty (Z.pos p)) with (pretty_N_go (N.pos p) "").
      by rewrite Hgo, string_app_nil_r.
    + rewrite Hparse. f_equal; try (cbn [Z.abs]; lia).
  - destruct (pretty_N_go_digits (N.pos p)) as (ds & Hgo & Hdig & Hne & Hparse).
    exists ds. split; [|split; [by apply Hne|split; [done|]]].
    + change (pretty (Z.neg p)) with ("-" +:+ pretty_N_go (N.pos p) "").
      by rewrite Hgo, string_app_nil_r.
    + rewrite Hparse. f_equal; try (cbn [Z.abs]; lia).
Qed.

(** [strconv.Atoi] reads back what [%v] prints for an [int]. *)
Lemma Atoi_pretty (z : Z) : in_int z -> strconv_Atoi (pretty z) = Some z.
Proof.
  intros Hz. destruct (pretty_Z_digits z) as (ds & -> & Hne & Hdig & Hparse).
  destruct ds as [|c ds]; [done|].
  destruct (digit_not_sign c) as (Hminus & Hplus & _).
  { apply Hdig. cbn [contains_byte]. by rewrite Ascii.eqb_refl. }
  assert ((int_min <=? z) && (z <=? int_max) = true)%Z as Hrange.
  { unfold in_int in Hz. apply andb_true_iff. split; apply Z.leb_le; lia. }
  unfold strconv_Atoi. destruct (Z.ltb_spec z 0).
  - rewrite Ascii.eqb_refl. cbn [fst snd]. rewrite Hparse.
    replace (- Z.abs z)%Z with z by lia. by rewrite Hrange.
  - rewrite Hminus, Hplus. cbn [fst snd]. rewrite Hparse.
    replace (Z.abs z) with z by lia. by rewrite Hrange.
Qed.

(** X25: an integer that was printed as text passes for an integer where
    [default] checks the type: for an [int] [z] and any integer default,
    [default] returns the text of [z], still as a string, and no error. *)
Theorem default_accepts_printed_int (z d : Z) :
  in_int z ->
  FuncMap.default (VString (Sprintf_v (VInt z))) (VInt d)
    = Done (VString (Sprintf_v (VInt z)), None).
Proof.
  intros Hz. cbn [Sprintf_v].
  pose proof (Atoi_pretty z Hz) as Hatoi.
  destruct (pretty z) as [|c s] eqn:Hp.
  { destruct (pretty_Z_digits z) as (ds & Heq & Hne & _).
    rewrite Hp in Heq. by destruct (z <? 0)%Z, ds. }
  cbn. by rewrite Hatoi.
Qed.

Lemma default_accepts_printed_int_witness :
  FuncMap.default (VString (Sprintf_v (VInt (-42)))) (VInt 7)
    = Done (VString (Sprintf_v (VInt (-42))), None).
Proof.
  apply (default_accepts_printed_int (-42) 7). vm_compute. split; discriminate.
Defined.

(** ** [join] on integers *)

Lemma strings_Replace_app a b old new :
  strings_Replace (a +:+ b) old new
  = strings_Replace a old new +:+ strings_Replace b old new.
Proof.
  induction a as [|c a IH]; [done|].
  rewrite string_app_cons. cbn [strings_Replace].
  destruct (Ascii.eqb c old); by rewrite IH, ?string_app_assoc.
Qed.

Lemma strings_Replace_absent x old new :
  contains_byte x old = false -> strings_Replace x old new = x.
Proof.
  induction x as [|c x IH]; [done|]. cbn [contains_byte strings_Replace].
  intros [Hc Hx]%orb_false_iff. by rewrite Hc, (IH Hx).
Qed.

(** Replacing the separator of a joined list whose elements do not have it
    joins the list with the new separator. *)
Lemma strings_Replace_concat xs old new :
  Forall (fun x => contains_byte x old = false) xs ->
  strings_Replace (String.concat (String old "") xs) old new
  = String.concat new xs.
Proof.
  induction 1 as [|x xs Hx Hxs IH]; [done|].
  destruct xs as [|y xs]; [by apply strings_Replace_absent|].
  rewrite !concat_cons_nonempty by done.
  rewrite strings_Replace_app, (strings_Replace_absent _ _ _ Hx).
  rewrite string_app_cons, string_app_nil_l. cbn [strings_Replace].
  by rewrite Ascii.eqb_refl, IH.
Qed.

Lemma last_byte_app a b : b <> "" -> last_byte (a +:+ b) = last_byte b.
Proof.
  intros Hb. induction a as [|c a IH]; [done|].
  rewrite string_app_cons. cbn [last_byte].
  destruct (a +:+ b) eqn:Hab; [|done].
  destruct a; [|done]. by rewrite string_app_nil_l in Hab.
Qed.

Lemma last_byte_contains s d : last_byte s = Some d -> contains_byte s d = true.
Proof.
  induction s as [|c [|e s] IH]; [done| |].
  - intros [= ->]. cbn [contains_byte]. by rewrite Ascii.eqb_refl.
  - intros Hlast. cbn [contains_byte] in *. rewrite (IH Hlast).
    by rewrite orb_true_r.
Qed.

Lemma last_byte_nonempty s : s <> "" -> is_Some (last_byte s).
Proof.
  induction s as [|c [|e s] IH]; [done| |]; intros _; [by eexists|].
  by apply IH.
Qed.

Lemma trim_right_app cutset b t :
  trim_right cutset t = "" -> trim_right cutset (b +:+ t) = trim_right cutset b.
Proof.
  intros Ht. induction b as [|c b IH]; [done|].
  rewrite string_app_cons. cbn [trim_right]. by rewrite IH.
Qed.

Lemma trim_right_id cutset b d :
  last_byte b = Some d -> in_cutset cutset d = false ->
  trim_right cutset b = b.
Proof.
  intros Hlast Hd. induction b as [|c [|e b] IH]; [done| |].
  - injection Hlast as ->. cbn [trim_right]. by rewrite Hd.
  - change (trim_right cutset (String c (String e b)))
      with (match trim_right cutset (String e b) with
            | EmptyString => if in_cutset cutset c then EmptyString
                             else String c EmptyString
            | t => String c t
            end).
    by rewrite (IH Hlast).
Qed.

(** The decimal form of an integer begins with a digit or a minus sign,
    ends with a digit and has no blank. *)
Lemma pretty_Z_ends (z : Z) :
  contains_byte (pretty z) " "%char = false /\
  (exists c rest, pretty z = String c rest /\
     in_cutset ["["%char; "]"%char] c = false) /\
  (exists d, last_byte (pretty z) = Some d /\
     in_cutset ["["%char; "]"%char] d = false).
Proof.
  destruct (pretty_Z_digits z) as (ds & -> & Hne & Hdig & _).
  assert (forall c, contains_byte ds c = true ->
            in_cutset ["["%char; "]"%char] c = false /\
            Ascii.eqb c " "%char = false) as Hok.
  { intros c Hc. destruct (digit_not_sign c (Hdig c Hc)) as (_ & _ & Hsp & Hl & Hr).
    cbn [in_cutset existsb]. by rewrite Hl, Hr. }
  assert (contains_byte ds " " = false) as Hblank.
  { destruct (contains_byte ds " ") eqn:Hc; [|done].
    by destruct (Hok _ Hc) as [_ ?]. }
  destruct (last_byte_nonempty ds Hne) as [d Hd].
  destruct ds as [|c ds']; [done|].
  assert (contains_byte (String c ds') c = true) as Hc
    by (cbn [contains_byte]; by rewrite Ascii.eqb_refl).
  destruct (z <? 0)%Z.
  - split.
    { change (Ascii.eqb "-" " " || contains_byte (String c ds') " " = false).
      by rewrite Hblank. }
    split.
    + by exists "-"%char, (String c ds').
    + exists d. split; [done|]. by apply Hok, last_byte_contains.
  - split; [done|]. split.
    + exists c, ds'. split; [done|]. by apply Hok.
    + exists d. split; [done|]. by apply Hok, last_byte_contains.
Qed.

(** X26: [join] on a sequence of integers joins their decimal forms with
    the separator, whatever the separator is: the detour over the printed
    sequence, whose blanks are replaced and whose brackets are trimmed,
    loses nothing, also for a separator that has blanks or brackets. *)
Theorem join_of_integers (l : list Z) (sep : Value) :
  FuncMap.join (VInts l) sep =
    Done (VString (String.concat
                     (match sep with VNil => " " | _ => FuncMap.Sprintf_s sep end)
                     (List.map pretty l)), None).
Proof.
  unfold FuncMap.join. set (s := match sep with VNil => " " | _ => _ end).
  do 2 f_equal. f_equal. cbn [Sprintf_v].
  assert (Forall (fun x => contains_byte x " " = false) (List.map pretty l))
    as Hblank.
  { apply Forall_forall. intros x Hx%list_elem_of_In%in_map_iff.
    destruct Hx as (z & <- & _). apply pretty_Z_ends. }
  rewrite string_app_cons, string_app_nil_l. cbn [strings_Replace].
  change (Ascii.eqb "[" " ") with false. cbn iota.
  rewrite strings_Replace_app, (strings_Replace_concat _ _ _ Hblank).
  cbn [strings_Replace]. change (Ascii.eqb "]" " ") with false. cbn iota.
  unfold strings_Trim. cbn [trim_left in_cutset existsb].
  rewrite Ascii.eqb_refl. cbn [orb].
  destruct l as [|z l]; [reflexivity|].
  set (body := String.concat s (List.map pretty (z :: l))).
  assert (exists c rest, body = String c rest /\
            in_cutset ["["%char; "]"%char] c = false) as (c & rest & Hbody & Hc).
  { destruct (pretty_Z_ends z) as (_ & (c & rest & Hz & Hc) & _).
    subst body. cbn [List.map]. destruct l as [|y l].
    - by exists c, rest.
    - rewrite concat_cons_nonempty by done. rewrite Hz, string_app_cons.
      by eexists _, _. }
  assert (exists d, last_byte body = Some d /\
            in_cutset ["["%char; "]"%char] d = false) as (d & Hlast & Hd).
  { subst body. clear c rest Hbody Hc Hblank.
    revert z. induction l as [|y l IH]; intros z.
    - destruct (pretty_Z_ends z) as (_ & _ & Hend). exact Hend.
    - cbn [List.map] in *. rewrite concat_cons_nonempty by done.
      destruct (IH y) as (d & Hlast & Hd). exists d. split; [|done].
      rewrite !last_byte_app; [done| |].
      + intros Heq. by rewrite Heq in Hlast.
      + intros Heq. destruct s; [|done].
        rewrite string_app_nil_l in Heq. by rewrite Heq in Hlast. }
  rewrite Hbody in *. rewrite string_app_cons.
  cbn [trim_left in_cutset existsb] in *. rewrite Hc.
  rewrite <- string_app_cons, trim_right_app by reflexivity.
  by apply (trim_right_id _ _ d).
Qed.

Lemma Config_joined_is_output_witness :
  exists res,
    RenderTemplate (EX:=Demo2.ext) "srl" "base-node.tmpl" ∅ Demo2.lines_state
      = Done (inl res, Demo2.lines_state) /\
    String.concat (String newline "") (Config res)
      = chomp ("interface e1" +:+ String newline "").
Proof.
  apply (Config_joined_is_output (EX:=Demo2.ext) Demo2.lines_state "srl"
           "base-node.tmpl" ∅ Demo2.good ("interface e1" +:+ String newline "")).
  - vm_compute. reflexivity.
  - reflexivity.
  - change (split_on_line_boundaries ("interface e1" +:+ String newline ""))
      with ["interface e1"].
    constructor; [|constructor].
    split; [apply Nat.ltb_lt; vm_compute; reflexivity | vm_compute; discriminate].
Defined.

Lemma Config_lines_bounded_witness :
  Forall (fun line => contains_byte line newline = false /\
                      String.length line < MaxScanTokenSize)
         (Scanner_tokens ("interface e1" +:+ String newline "")).
Proof.
  apply (Config_lines_bounded (EX:=Demo2.ext) Demo2.lines_state "srl"
           "base-node.tmpl" ∅
           {| TargetNode := None; templateName := "base-node.tmpl"; source := "";
              templateLabels := ∅;
              Config := Scanner_tokens ("interface e1" +:+ String newline "") |}
           Demo2.lines_state).
  apply (RenderTemplate_loaded (EX:=Demo2.ext) Demo2.lines_state "srl"
           "base-node.tmpl" ∅ Demo2.good ("interface e1" +:+ String newline ""));
    [vm_compute; reflexivity | reflexivity].
Defined.

Lemma final_newline_adds_no_line_witness :
  exists r1 r2,
    RenderTemplate (EX:=Demo2.ext) "plain" "base-node.tmpl" ∅ Demo2.lines_state
      = Done (inl r1, Demo2.lines_state) /\
    RenderTemplate (EX:=Demo2.ext) "srl" "base-node.tmpl" ∅ Demo2.lines_state
      = Done (inl r2, Demo2.lines_state) /\
    Config r1 = Config r2.
Proof.
  apply (final_newline_adds_no_line (EX:=Demo2.ext) Demo2.lines_state
           "plain" "base-node.tmpl" ∅ Demo2.plain
           "srl" "base-node.tmpl" ∅ Demo2.good "interface e1").
  - vm_compute. reflexivity.
  - vm_compute. reflexivity.
  - reflexivity.
  - reflexivity.
  - discriminate.
  - vm_compute. discriminate.
Defined.

(** ** The snippets of a link, and defaults that are required *)

Section LinkSnippets.

Context {MO : MapOrder} {EX : Externals}.

Lemma RenderTemplate_snippet st kind name labels res st' :
  RenderTemplate kind name labels st = Done (inl res, st') ->
  exists out,
    res = {| TargetNode := None; templateName := name; source := "";
             templateLabels := labels; Config := Scanner_tokens out |}.
Proof.
  unfold RenderTemplate, lookup_template, mbind, M_bind, lift.
  destruct (ExecuteTemplate _ _ _) as [[out [err|]]|]; cbn;
    [discriminate| |discriminate].
  intros [= <- <-]. by exists out.
Qed.

(** X27: the two snippets that [RenderLink] returns belong to the two ends
    in their order: the first has node A as its target and the second node
    B, both name the link as their source and "base-link.tmpl" as their
    template, and [String] describes each without a panic. *)
Theorem RenderLink_snippets link st sA sB st' :
  RenderLink link st = Done (inl (sA, sB), st') ->
  TargetNode sA = Some (clab.EndpointNode (clab.A link)) /\
  TargetNode sB = Some (clab.EndpointNode (clab.B link)) /\
  source sA = Link_String link /\ source sB = Link_String link /\
  templateName sA = "base-link.tmpl" /\ templateName sB = "base-link.tmpl" /\
  ConfigSnippet_String sA =
    Done (clab.LongName (clab.EndpointNode (clab.A link)) +:+ ": "
          +:+ Link_String link +:+ " "
          +:+ pretty (Z.of_nat (length (Config sA))) +:+ " lines of config") /\
  ConfigSnippet_String sB =
    Done (clab.LongName (clab.EndpointNode (clab.B link)) +:+ ": "
          +:+ Link_String link +:+ " "
          +:+ pretty (Z.of_nat (length (Config sB))) +:+ " lines of config").
Proof.
  unfold RenderLink.
  destruct (linkIPfromSystemIP link) as [[ipA ipB]|err]; [|discriminate].
  unfold mbind at 1. unfold M_bind at 1. rewrite link_pairs_run.
  unfold mbind at 1. unfold M_bind at 1. cbn [logf].
  unfold mbind at 1. unfold M_bind at 1.
  rewrite (render_side_run link _ 0 _ _ (side_labels_A link ipA ipB)).
  cbn zeta. case_decide; [|done].
  destruct (RenderTemplate _ _ (sideA_result link ipA ipB) _)
    as [[[resA|errA] stA]|] eqn:HA; [|discriminate|discriminate].
  apply RenderTemplate_snippet in HA as [outA ->].
  unfold mbind at 1. unfold M_bind at 1.
  rewrite (render_side_run link _ 1 _ _ (side_labels_B link ipA ipB)).
  cbn zeta. case_decide; [done|].
  destruct (RenderTemplate _ _ (sideB_result link ipA ipB) _)
    as [[[resB|errB] stB]|] eqn:HB; [|discriminate|discriminate].
  apply RenderTemplate_snippet in HB as [outB ->].
  cbn. intros [= <- <- <-]. done.
Qed.

End LinkSnippets.

Lemma RenderLink_snippets_witness :
  let sA := {| TargetNode := Some Demo.r1; templateName := "base-link.tmpl";
               source := "link";
               templateLabels := sideA_result (MO:=Demo.order) (EX:=Demo.ext)
                                   Demo.link_ports Demo.addr_A Demo.addr_B;
               Config := Scanner_tokens "hostname r1" |} in
  let sB := {| TargetNode := Some Demo.r2; templateName := "base-link.tmpl";
               source := "link";
               templateLabels := sideB_result (MO:=Demo.order) (EX:=Demo.ext)
                                   Demo.link_ports Demo.addr_A Demo.addr_B;
               Config := Scanner_tokens "hostname r1" |} in
  TargetNode sA = Some Demo.r1 /\ TargetNode sB = Some Demo.r2 /\
  source sA = "link" /\ source sB = "link" /\
  templateName sA = "base-link.tmpl" /\ templateName sB = "base-link.tmpl" /\
  ConfigSnippet_String sA =
    Done ("lab-r1" +:+ ": " +:+ "link" +:+ " "
          +:+ pretty (Z.of_nat (length (Config sA))) +:+ " lines of config") /\
  ConfigSnippet_String sB =
    Done ("lab-r2" +:+ ": " +:+ "link" +:+ " "
          +:+ pretty (Z.of_nat (length (Config sB))) +:+ " lines of config").
Proof.
  apply (RenderLink_snippets (MO:=Demo.order) (EX:=Demo.ext) Demo.link_ports
           Demo.loaded_state _ _
           (sideB_state (MO:=Demo.order) (EX:=Demo.ext) Demo.link_ports
              Demo.addr_A Demo.addr_B Demo.loaded_state)).
  apply (RenderLink_succeeds (MO:=Demo.order) (EX:=Demo.ext) Demo.link_ports
           Demo.addr_A Demo.addr_B eq_refl Demo.loaded_state
           "hostname r1" "hostname r1" "hostname r1" "hostname r1");
    solve [reflexivity | vm_compute; reflexivity].
Defined.

(** X28: what [default] returns without an error is never nil, so
    [require] passes it on unchanged: a value that went through [default]
    is never reported as not set. *)
Theorem require_after_default (val def r : Value) :
  FuncMap.default val def = Done (r, None) ->
  FuncMap.require r = Done (r, None).
Proof.
  destruct def as [|ds|dn|db|de dsp|dl|dl]; [discriminate|..];
    destruct val as [|[|c s]|n|[|]|e sp|l|l]; cbn;
    try destruct (strconv_Atoi (String c s)); cbn;
    intros [= <-]; done.
Qed.

Lemma require_after_default_witness :
  FuncMap.require (VString "eth0") = Done (VString "eth0", None).
Proof.
  apply (require_after_default (VString "") (VString "eth0") (VString "eth0")).
  reflexivity.
Defined.
